(** * PolarFlux: heliographic geometry of magnetograms ([zaw_coord2.py])

    A shallow embedding of the class [CRD] of [python/zaw_coord2.py] and the
    properties its specification states about it.

    - Numbers are IEEE-754 binary64 values, Rocq's primitive [float]:
      addition, multiplication, division, square root and comparison are the
      hardware operations numpy uses.
    - The transcendental functions of numpy ([np.tan], [np.sin], [np.cos],
      [np.arcsin], [np.arctan2]) and the power of a scalar ([pow]) come from
      the platform's libm and are a parameter of the development (record
      [libm]); the general theorems are stated for every libm.  [libm_ref]
      is a reference implementation in binary64 used to run the model on a
      concrete image.
    - An array is the list of its rows.  Its entries are floats, except in
      lines 84-87 of [heliographic], where an int offset beyond 64 bits makes
      them Python objects: there the element type is tracked, since the
      square and the square root of line 87 depend on it.
    - A [CRD] object is a record; the attributes the methods add lazily
      ([xg], [yg], [rg], [lonh], [lath], [im_corr], [area], [mgnt_flux]) are
      [option] fields, [None] while the attribute does not exist.
    - A method is a function from the object before the call to the object
      after it and the outcome, a returned value or a raised exception. *)

From Stdlib Require Import Floats ZArith List Bool Lia.
From stdpp Require Import base option list gmap strings.
Import ListNotations.

(** ** Python: exceptions and outcomes *)

Inductive exn : Type :=
  | IndexError
  | TypeError
  | OverflowError
  | KeyError (key : string)
  | NameError (name : string)
  | AttributeError (name : string).

Inductive outcome (A : Type) : Type :=
  | Return (a : A)
  | Raise (e : exn).
Arguments Return {A} a.
Arguments Raise {A} e.

Definition is_Return {A} (o : outcome A) : bool :=
  match o with Return _ => true | Raise _ => false end.

Definition obind {A B} (o : outcome A) (k : A -> outcome B) : outcome B :=
  match o with Return a => k a | Raise e => Raise e end.

(** [try: body except KeyError: handler] *)
Definition except_KeyError {A} (body handler : outcome A) : outcome A :=
  match body with
  | Raise (KeyError _) => handler
  | o => o
  end.

(** ** Numbers

    A Python [int] becomes a [float] in mixed arithmetic, rounded to nearest
    and raising [OverflowError] beyond the range of binary64. *)

Definition Z2float (z : Z) : float := SF2Prim (binary_normalize prec emax z 0 false).

Inductive pynum : Type :=
  | PyInt (z : Z)
  | PyFloat (f : float).

Definition to_float (n : pynum) : outcome float :=
  match n with
  | PyInt z =>
      if PrimFloat.is_infinity (Z2float z) then Raise OverflowError
      else Return (Z2float z)
  | PyFloat f => Return f
  end.

(** [np.deg2rad] and [np.rad2deg] multiply by a constant computed in
    binary64 from [NPY_PI]. *)
Definition NPY_PI : float := 0x1.921fb54442d18p+1%float.
Definition deg2rad (x : float) : float := (x * (NPY_PI / 180))%float.
Definition rad2deg (x : float) : float := (x * (180 / NPY_PI))%float.

(** [x**2] on the entries of an array of floats: the product of [x] with
    itself *)
Definition square (x : float) : float := (x * x)%float.

(** The functions numpy takes from libm.  [np_pow] is [pow]: a power of a
    numpy scalar, and of a Python float, is computed by it, so that [x**2]
    on a scalar is [pow(x, 2.0)] and may differ from the product [x * x] in
    the last place. *)
Record libm : Type := {
  np_tan : float -> float;
  np_sin : float -> float;
  np_cos : float -> float;
  np_arcsin : float -> float;
  np_arctan2 : float -> float -> float;
  np_pow : float -> float -> float
}.

(** A Python number added to an array of floats.  numpy adds a float, and
    an int that fits a 64-bit integer type (signed or unsigned), as a float;
    any other int turns the sum into an array of Python objects, added entry
    by entry by Python, which refuses an int beyond the floats.  A row
    without entries converts nothing. *)
Definition fits_64_bits (z : Z) : bool := ((- 2 ^ 63 <=? z) && (z <? 2 ^ 64))%Z.

Definition object_offset (n : pynum) : bool :=
  match n with
  | PyInt z => negb (fits_64_bits z)
  | PyFloat _ => false
  end.

Definition add_offset (row : list float) (n : pynum) : outcome (list float) :=
  match row with
  | [] => Return []
  | _ :: _ => obind (to_float n) (fun d => Return (fmap (M:=list) (fun v => v + d)%float row))
  end.

(** ** numpy values

    The values of [heliographic] are either numpy scalars ([np.float64], in
    the pixel case) or 2-D arrays, lists of rows (in the image case). *)

Abbreviation grid := (list (list float)).

Inductive ndval : Type :=
  | Scalar (f : float)
  | Grid (g : grid).

(** Element-wise functions.  All arrays of one call have the shape of the one
    mesh grid built in it; on arrays of one shape [zip_with] is numpy's
    element-wise operation. *)
Definition grid_map (f : float -> float) (g : grid) : grid :=
  fmap (M:=list) (fmap (M:=list) f) g.
Definition grid_zip (f : float -> float -> float) (g h : grid) : grid :=
  zip_with (zip_with f) g h.

Definition nd1 (f : float -> float) (v : ndval) : ndval :=
  match v with
  | Scalar a => Scalar (f a)
  | Grid g => Grid (grid_map f g)
  end.

Definition nd2 (f : float -> float -> float) (v w : ndval) : ndval :=
  match v, w with
  | Scalar a, Scalar b => Scalar (f a b)
  | Scalar a, Grid h => Grid (grid_map (f a) h)
  | Grid g, Scalar b => Grid (grid_map (fun x => f x b) g)
  | Grid g, Grid h => Grid (grid_zip f g h)
  end.

(** [a[i][j]] of the model, [None] out of range *)
Definition at2 (g : grid) (i j : nat) : option float :=
  match g !! i with
  | Some row => row !! j
  | None => None
  end.

(** [np.where(c)] of a Python [bool]: one index array, [[0]] when [c] holds. *)
Definition where_bool (c : bool) : list nat := if c then [0] else [].

(** [v[w]] where [w] is the one index array of [where_bool]: the rows of a
    2-D array that [w] lists; a numpy scalar accepts no such index. *)
Fixpoint take_rows (g : grid) (w : list nat) : outcome grid :=
  match w with
  | [] => Return []
  | i :: w' =>
      match g !! i with
      | Some row => obind (take_rows g w') (fun rows => Return (row :: rows))
      | None => Raise IndexError
      end
  end.

Definition getitem_rows (v : ndval) (w : list nat) : outcome ndval :=
  match v with
  | Scalar _ => Raise IndexError
  | Grid g => obind (take_rows g w) (fun rows => Return (Grid rows))
  end.

(** [v[w] = rows]: a numpy scalar supports no item assignment. *)
Fixpoint put_rows (g : grid) (w : list nat) (rows : grid) : outcome grid :=
  match w, rows with
  | i :: w', row :: rows' =>
      if decide (i < length g) then put_rows (<[i := row]> g) w' rows'
      else Raise IndexError
  | _, _ => Return g
  end.

Definition setitem_rows (v : ndval) (w : list nat) (rows : ndval) : outcome ndval :=
  match v, rows with
  | Grid g, Grid r => obind (put_rows g w r) (fun g' => Return (Grid g'))
  | _, _ => Raise TypeError
  end.

(** [np.where(v > c)]: the positions, in row-major order, of the elements
    greater than [c].  For a numpy scalar the result is the one index array
    [[0]] or [[]], kept here as the first components. *)
Definition row_where_gt (c : float) (i : nat) (row : list float) : list (nat * nat) :=
  concat (imap (fun j a => if PrimFloat.ltb c a then [(i, j)] else []) row).

Definition where_gt (v : ndval) (c : float) : list (nat * nat) :=
  match v with
  | Scalar a => if PrimFloat.ltb c a then [(0, 0)] else []
  | Grid g => concat (imap (row_where_gt c) g)
  end.

(** [ii[0].any()]: some listed row index is not zero. *)
Definition any_row (ii : list (nat * nat)) : bool :=
  existsb (fun p => negb (Nat.eqb (fst p) 0)) ii.

(** [g[ii] = c] *)
Fixpoint put_at (g : grid) (ii : list (nat * nat)) (c : float) : outcome grid :=
  match ii with
  | [] => Return g
  | (i, j) :: ii' =>
      match g !! i with
      | Some row =>
          if decide (j < length row) then put_at (<[i := <[j := c]> row]> g) ii' c
          else Raise IndexError
      | None => Raise IndexError
      end
  end.

Definition setitem_at (v : ndval) (ii : list (nat * nat)) (c : float) : outcome ndval :=
  match v with
  | Scalar _ => Raise TypeError
  | Grid g => obind (put_at g ii c) (fun g' => Return (Grid g'))
  end.

(** [np.arange(0, n)] as floats, and [np.meshgrid(xrow, yrow, indexing='xy')] *)
Definition arange (n : nat) : list float :=
  fmap (M:=list) (fun j => Z2float (Z.of_nat j)) (seq 0 n).

Definition meshgrid (xrow yrow : list float) : grid * grid :=
  (fmap (M:=list) (fun _ => xrow) yrow,
   fmap (M:=list) (fun y => fmap (M:=list) (fun _ => y) xrow) yrow).

(** ** The solar map handed over by [sunpy.map.Map]

    [meta] is the header dictionary (sunpy stores its keys in one case, so a
    key is looked up by its upper-case name), [scale] the pixel scale in x and
    y, [dimensions] the number of pixels in x and y. *)

Record Map : Type := {
  meta : gmap string float;
  data : grid;
  scale : float * float;
  dimensions : nat * nat;
  detector : string;
  rsun_obs : float
}.

(** [d[key]] on a dictionary *)
Definition getitem_meta (m : gmap string float) (key : string) : outcome float :=
  match m !! key with
  | Some v => Return v
  | None => Raise (KeyError key)
  end.

(** The pattern of lines 30-45: the short key, then the instrument's key. *)
Definition meta_fallback (m : gmap string float) (short full : string)
  : outcome float :=
  except_KeyError (getitem_meta m short) (getitem_meta m full).

(** ** The object *)

Record CRD : Type := {
  im_raw : Map;
  B0 : float;
  L0 : float;
  X0 : float;
  Y0 : float;
  rsun : float;
  xg : option grid;
  yg : option grid;
  rg : option grid;
  lonh : option ndval;
  lath : option ndval;
  im_corr : option ndval;
  area : option ndval;
  mgnt_flux : option ndval
}.

(** [CRD.__init__], lines 27-49, after [sunpy.map.Map(filename)] has
    produced [im]. *)
Definition __init__ (im : Map) : outcome CRD :=
  obind (meta_fallback (meta im) "B0" "OBS_B0") (fun b0 =>
  obind (meta_fallback (meta im) "L0" "OBS_L0") (fun l0 =>
  obind (meta_fallback (meta im) "X0" "IMG_X0") (fun x0 =>
  obind (meta_fallback (meta im) "Y0" "IMG_Y0") (fun y0 =>
  obind (if String.eqb (detector im) "SPMG"
         then obind (getitem_meta (meta im) "SCALE") (fun s =>
                Return (rsun_obs im / s)%float)
         else Return (rsun_obs im)) (fun r =>
  Return {| im_raw := im; B0 := b0; L0 := l0; X0 := x0; Y0 := y0; rsun := r;
            xg := None; yg := None; rg := None; lonh := None; lath := None;
            im_corr := None; area := None; mgnt_flux := None |}))))).

(** ** Methods: state and exceptions

    A method body runs on the object [self]; it may write attributes of it
    and it returns or raises.  The writes made before an exception stay. *)

Definition M (A : Type) : Type := CRD -> CRD * outcome A.

Definition ret {A} (a : A) : M A := fun self => (self, Return a).
Definition raise {A} (e : exn) : M A := fun self => (self, Raise e).
Definition lift {A} (o : outcome A) : M A := fun self => (self, o).
Definition bind {A B} (m : M A) (k : A -> M B) : M B :=
  fun self =>
    match m self with
    | (self', Return a) => k a self'
    | (self', Raise e) => (self', Raise e)
    end.
Definition getattr {A} (f : CRD -> A) : M A := fun self => (self, Return (f self)).
Definition setattr (f : CRD -> CRD) : M unit := fun self => (f self, Return tt).

(** [try: body except IndexError: handler] *)
Definition except_IndexError {A} (body handler : M A) : M A :=
  fun self =>
    match body self with
    | (self', Raise IndexError) => handler self'
    | r => r
    end.

Notation "'let*' x ':=' m 'in' k" := (bind m (fun x => k))
  (at level 10, x name, m at level 100, k at level 200, only parsing).
Notation "'let*' ' p ':=' m 'in' k" := (bind m (fun x => match x with p => k end))
  (at level 10, p pattern, m at level 100, k at level 200, only parsing).

(** Attribute writes *)
Definition set_xg_yg (x y : grid) (s : CRD) : CRD :=
  {| im_raw := im_raw s; B0 := B0 s; L0 := L0 s; X0 := X0 s; Y0 := Y0 s;
     rsun := rsun s; xg := Some x; yg := Some y; rg := rg s;
     lonh := lonh s; lath := lath s; im_corr := im_corr s; area := area s;
     mgnt_flux := mgnt_flux s |}.
Definition set_rg (r : grid) (s : CRD) : CRD :=
  {| im_raw := im_raw s; B0 := B0 s; L0 := L0 s; X0 := X0 s; Y0 := Y0 s;
     rsun := rsun s; xg := xg s; yg := yg s; rg := Some r;
     lonh := lonh s; lath := lath s; im_corr := im_corr s; area := area s;
     mgnt_flux := mgnt_flux s |}.
Definition set_lonh (v : ndval) (s : CRD) : CRD :=
  {| im_raw := im_raw s; B0 := B0 s; L0 := L0 s; X0 := X0 s; Y0 := Y0 s;
     rsun := rsun s; xg := xg s; yg := yg s; rg := rg s;
     lonh := Some v; lath := lath s; im_corr := im_corr s; area := area s;
     mgnt_flux := mgnt_flux s |}.
Definition set_lath (v : ndval) (s : CRD) : CRD :=
  {| im_raw := im_raw s; B0 := B0 s; L0 := L0 s; X0 := X0 s; Y0 := Y0 s;
     rsun := rsun s; xg := xg s; yg := yg s; rg := rg s;
     lonh := lonh s; lath := Some v; im_corr := im_corr s; area := area s;
     mgnt_flux := mgnt_flux s |}.
Definition set_im_corr (v : ndval) (s : CRD) : CRD :=
  {| im_raw := im_raw s; B0 := B0 s; L0 := L0 s; X0 := X0 s; Y0 := Y0 s;
     rsun := rsun s; xg := xg s; yg := yg s; rg := rg s;
     lonh := lonh s; lath := lath s; im_corr := Some v; area := area s;
     mgnt_flux := mgnt_flux s |}.
Definition set_area (v : ndval) (s : CRD) : CRD :=
  {| im_raw := im_raw s; B0 := B0 s; L0 := L0 s; X0 := X0 s; Y0 := Y0 s;
     rsun := rsun s; xg := xg s; yg := yg s; rg := rg s;
     lonh := lonh s; lath := lath s; im_corr := im_corr s; area := Some v;
     mgnt_flux := mgnt_flux s |}.
Definition set_mgnt_flux (v : ndval) (s : CRD) : CRD :=
  {| im_raw := im_raw s; B0 := B0 s; L0 := L0 s; X0 := X0 s; Y0 := Y0 s;
     rsun := rsun s; xg := xg s; yg := yg s; rg := rg s;
     lonh := lonh s; lath := lath s; im_corr := im_corr s; area := area s;
     mgnt_flux := Some v |}.

(** ** Arguments

    [*args]: the first argument is a pixel coordinate or the image array
    ([isinstance(args[0], np.ndarray)]), the others are numbers. *)

Inductive pyval : Type :=
  | Num (n : pynum)
  | Arr (a : grid).

Definition args : Type := pyval * list pynum.

(** [args[k]] for [k >= 1] *)
Definition arg (a : args) (k : nat) : M pynum :=
  match snd a !! (k - 1) with
  | Some n => ret n
  | None => raise IndexError
  end.

Definition isinstance_ndarray (v : pyval) : bool :=
  match v with Arr _ => true | Num _ => false end.

(** ** Module-level names

    The names bound at module level, lines 1-16 and 245.  Two of them are
    numbers, taken from [sunpy.sun.constants]; their values are a parameter.
    The others are modules, a class and a function, which no arithmetic
    accepts.  A name that is neither local nor in this list nor a builtin
    raises [NameError]. *)

Record sun_constants : Type := {
  RSUN_METERS : float;
  DSUN_METERS : float
}.

Definition module_globals (sc : sun_constants) : list (string * option float) :=
  [ ("__authors__", None); ("__email__", None); ("np", None); ("sunpy", None);
    ("constants", None); ("sun", None); ("u", None);
    ("RSUN_METERS", Some (RSUN_METERS sc)); ("DSUN_METERS", Some (DSUN_METERS sc));
    ("CRD", None); ("dot", None) ].

Fixpoint assoc {A} (name : string) (l : list (string * A)) : option A :=
  match l with
  | [] => None
  | (k, v) :: l' => if String.eqb name k then Some v else assoc name l'
  end.

(** Reading a name that is not local, where a number is expected. *)
Definition load_global (sc : sun_constants) (name : string) : M float :=
  match assoc name (module_globals sc) with
  | Some (Some v) => ret v
  | Some None => raise TypeError
  | None => raise (NameError name)
  end.

(** ** The methods of [CRD] *)

Section Methods.

Variable lm : libm.
Variable sc : sun_constants.

Local Open Scope float_scope.

(** [rat2 is not 0]: an identity test against the [int] object [0], which
    no numpy value is. *)
Definition is_not_0 (v : ndval) : bool := true.

(** [v**2]: entry by entry the product on an array of floats, [pow] on a
    numpy scalar. *)
Definition power2 (v : ndval) : ndval :=
  match v with
  | Scalar a => Scalar (np_pow lm a 2)
  | Grid g => Grid (grid_map square g)
  end.

(** Lines 104-135: from the offsets [x], [y] to longitude and latitude in
    radians.  [Robs] is a numpy scalar, its square at line 128 is [pow]. *)
Definition project (b0 radius : float) (x y : ndval) : outcome (ndval * ndval) :=
  let b0_r := deg2rad b0 in
  let Robs := 1 / np_tan lm (deg2rad (radius / 60)) in
  let xxat := nd1 (np_tan lm) (nd1 deg2rad (nd2 PrimFloat.div x (Scalar 60))) in
  let yyat := nd1 (np_tan lm) (nd1 deg2rad (nd2 PrimFloat.div y (Scalar 60))) in
  let rat2 := nd2 PrimFloat.add (power2 xxat) (power2 yyat) in
  let phi := nd2 PrimFloat.mul (Scalar 0) rat2 in
  let w_rat2 := where_bool (is_not_0 rat2) in
  obind (getitem_rows xxat w_rat2) (fun xxat_w =>
  obind (getitem_rows yyat w_rat2) (fun yyat_w =>
  obind (setitem_rows phi w_rat2 (nd2 (np_arctan2 lm) xxat_w yyat_w)) (fun phi =>
  let max_ra := np_arcsin lm (1 / Robs) in
  let max_rat2 := np_tan lm max_ra * np_tan lm max_ra in
  let ii := where_gt rat2 max_rat2 in
  obind (if any_row ii then setitem_at rat2 ii max_rat2 else Return rat2) (fun rat2 =>
  let ras2 := nd2 PrimFloat.mul (Scalar 0) rat2 in
  obind (getitem_rows rat2 w_rat2) (fun rat2_w =>
  obind (setitem_rows ras2 w_rat2
           (nd2 PrimFloat.div (Scalar 1)
              (nd2 PrimFloat.add (Scalar 1) (nd2 PrimFloat.div (Scalar 1) rat2_w))))
        (fun ras2 =>
  let d1 := nd2 PrimFloat.sub (Scalar 1) ras2 in
  let d2 := nd2 PrimFloat.sub (Scalar 1) (nd2 PrimFloat.mul (Scalar (np_pow lm Robs 2)) ras2) in
  let x := nd2 PrimFloat.add (nd2 PrimFloat.mul ras2 (Scalar Robs))
             (nd2 PrimFloat.mul (nd1 PrimFloat.sqrt d1) (nd1 PrimFloat.sqrt d2)) in
  let rr := nd1 PrimFloat.sqrt (nd2 PrimFloat.mul rat2 (Scalar Robs)) in
  let t1 := nd2 PrimFloat.mul (nd1 (np_sin lm) phi) rr in
  let t2 := nd2 PrimFloat.mul (nd1 (np_cos lm) phi) rr in
  let hglt := nd1 (np_arcsin lm) t2 in
  let hgln := nd2 (np_arctan2 lm) x t1 in
  Return (hgln, hglt))))))).

(** [g**2] on an array of Python floats: Python's own power, entry by
    entry.  On a finite entry other than 0, 1 and -1 it calls [pow] on the
    absolute value and raises [OverflowError] when the result is infinite. *)
Definition python_power2_overflows (x : float) : bool :=
  PrimFloat.is_finite x && negb (PrimFloat.is_zero x) &&
  negb (PrimFloat.eqb (PrimFloat.abs x) 1) &&
  PrimFloat.is_infinity (np_pow lm (PrimFloat.abs x) 2).

Definition object_power2 (g : grid) : outcome unit :=
  if existsb (existsb python_power2_overflows) g then Raise OverflowError
  else Return tt.

Definition has_entries (g : grid) : bool :=
  existsb (fun row => match row with [] => false | _ :: _ => true end) g.

(** Line 87 (and 94) when [xg] or [yg] is an array of Python objects
    ([xobj], [yobj]): the squares are Python's, the sum is an array of
    objects, and [np.sqrt] finds no [sqrt] method on its first entry, a
    Python float, which is a [TypeError].  An array without entries passes,
    and so do arrays of floats. *)
Definition sqrt_of_objects (xobj yobj : bool) (gx gy : grid) : outcome unit :=
  if xobj || yobj then
    obind (if xobj then object_power2 gx else Return tt) (fun _ =>
    obind (if yobj then object_power2 gy else Return tt) (fun _ =>
    if has_entries gx then Raise TypeError else Return tt))
  else Return tt.

(** Lines 86-89 and 93-96: the mesh grids of the image, stored on the
    object. *)
Definition mesh (xobj yobj : bool) (xrow yrow : list float) : M (ndval * ndval) :=
  let* _ := setattr (set_xg_yg (fst (meshgrid xrow yrow)) (snd (meshgrid xrow yrow))) in
  let* xg_ := getattr xg in
  let* yg_ := getattr yg in
  match xg_, yg_ with
  | Some gx, Some gy =>
      let* _ := lift (sqrt_of_objects xobj yobj gx gy) in
      let* _ := setattr (set_rg (grid_map PrimFloat.sqrt
                  (grid_zip PrimFloat.add (grid_map square gx) (grid_map square gy)))) in
      ret (Grid gx, Grid (grid_map PrimFloat.opp gy))
  | _, _ => raise (AttributeError "xg")
  end.

(** [CRD.heliographic], lines 56-145 *)
Definition heliographic (a : args) : M (ndval * ndval) :=
  let* xScl := getattr (fun s => fst (scale (im_raw s))) in
  let* yScl := getattr (fun s => snd (scale (im_raw s))) in
  let* xy :=
    match fst a with
    | Arr _ =>
        let* xdim := getattr (fun s => fst (dimensions (im_raw s))) in
        let* ydim := getattr (fun s => snd (dimensions (im_raw s))) in
        except_IndexError
          (let* x0 := getattr X0 in
           let* a1 := arg a 1%nat in
           let* xsum := lift (add_offset (fmap (M:=list) (fun j => j - x0) (arange xdim)) a1) in
           let xrow := fmap (M:=list) (fun v => v * xScl) xsum in
           let* y0 := getattr Y0 in
           let* a2 := arg a 2%nat in
           let* ysum := lift (add_offset (fmap (M:=list) (fun i => i - y0) (arange ydim)) a2) in
           let yrow := fmap (M:=list) (fun v => v * yScl) ysum in
           mesh (object_offset a1) (object_offset a2) xrow yrow)
          (let* x0 := getattr X0 in
           let xrow := fmap (M:=list) (fun j => (j - x0) * xScl) (arange xdim) in
           let* y0 := getattr Y0 in
           let yrow := fmap (M:=list) (fun i => (i - y0) * yScl) (arange ydim) in
           mesh false false xrow yrow)
    | Num a0 =>
        let* a1 := arg a 1%nat in
        let* col := lift (to_float a1) in
        let* x0 := getattr X0 in
        let x := (col - x0) * xScl / 60 in
        let* y0 := getattr Y0 in
        let* row := lift (to_float a0) in
        let y := (y0 - row) * yScl / 60 in
        ret (Scalar x, Scalar y)
    end in
  let* b0 := getattr B0 in
  let* radius := getattr rsun in
  let* ll := lift (project b0 radius (fst xy) (snd xy)) in
  let hgln := fst ll in
  let hglt := snd ll in
  let* cached := getattr lonh in
  let* _ :=
    if isinstance_ndarray (fst a) && negb (bool_decide (is_Some cached)) then
      let* _ := setattr (set_lonh (nd1 rad2deg hgln)) in
      setattr (set_lath (nd1 rad2deg hglt))
    else ret tt in
  ret (nd1 rad2deg hgln, nd1 rad2deg hglt).

(** [self.im_raw.data[i, j]]: integer indices, negative ones counted from the
    end; any other index is refused. *)
Definition py_index (len : nat) (z : Z) : option nat :=
  if (0 <=? z)%Z then (if (z <? Z.of_nat len)%Z then Some (Z.to_nat z) else None)
  else if (- Z.of_nat len <=? z)%Z then Some (Z.to_nat (Z.of_nat len + z))
  else None.

Definition getitem2 (d : grid) (i j : pynum) : outcome float :=
  match i, j with
  | PyInt zi, PyInt zj =>
      match py_index (length d) zi with
      | Some i' =>
          match d !! i' with
          | Some row =>
              match py_index (length row) zj with
              | Some j' =>
                  match row !! j' with
                  | Some v => Return v
                  | None => Raise IndexError
                  end
              | None => Raise IndexError
              end
          | None => Raise IndexError
          end
      | None => Raise IndexError
      end
  | _, _ => Raise IndexError
  end.

(** [CRD.los_corr], lines 147-171 *)
Definition los_corr (a : args) : M ndval :=
  let* ll :=
    match fst a with
    | Arr d => heliographic (Arr d, [])
    | Num a0 =>
        let* a1 := arg a 1%nat in
        heliographic (Num a0, [a1])
    end in
  let lonh := nd1 deg2rad (fst ll) in
  let lath := nd1 deg2rad (snd ll) in
  let* b0 := load_global sc "B0" in
  let* l0 := getattr L0 in
  let Xobs := np_cos lm (deg2rad b0) * np_cos lm (deg2rad l0) in
  let* b0 := load_global sc "B0" in
  let* l0 := getattr L0 in
  let Yobs := np_cos lm (deg2rad b0) * np_sin lm (deg2rad l0) in
  let* b0 := load_global sc "B0" in
  let Zobs := np_sin lm (deg2rad b0) in
  let corr_factor :=
    nd2 PrimFloat.add
      (nd2 PrimFloat.add
         (nd2 PrimFloat.mul
            (nd2 PrimFloat.mul (nd1 (np_cos lm) lath) (nd1 (np_cos lm) lonh))
            (Scalar Xobs))
         (nd2 PrimFloat.mul
            (nd2 PrimFloat.mul (nd1 (np_cos lm) lath) (nd1 (np_sin lm) lonh))
            (Scalar Yobs)))
      (nd2 PrimFloat.mul (nd1 (np_sin lm) lath) (Scalar Zobs)) in
  match fst a with
  | Arr _ =>
      let* d := getattr (fun s => data (im_raw s)) in
      let* _ := setattr (set_im_corr (nd2 PrimFloat.div (Grid d) corr_factor)) in
      let* c := getattr im_corr in
      match c with
      | Some v => ret v
      | None => raise (AttributeError "im_corr")
      end
  | Num a0 =>
      let* d := getattr (fun s => data (im_raw s)) in
      let* a1 := arg a 1%nat in
      let* v := lift (getitem2 d a0 a1) in
      ret (nd2 PrimFloat.div (Scalar v) corr_factor)
  end.

(** Vectors of three numpy values, [np.cross(a, b, axis=0)] and the module's
    [dot], line 245 *)
Definition vec3 : Type := ndval * ndval * ndval.

Definition cross (a b : vec3) : vec3 :=
  let '(a0, a1, a2) := a in
  let '(b0, b1, b2) := b in
  (nd2 PrimFloat.sub (nd2 PrimFloat.mul a1 b2) (nd2 PrimFloat.mul a2 b1),
   nd2 PrimFloat.sub (nd2 PrimFloat.mul a2 b0) (nd2 PrimFloat.mul a0 b2),
   nd2 PrimFloat.sub (nd2 PrimFloat.mul a0 b1) (nd2 PrimFloat.mul a1 b0)).

Definition dot (a b : vec3) : ndval :=
  let '(a0, a1, a2) := a in
  let '(b0, b1, b2) := b in
  nd2 PrimFloat.add
    (nd2 PrimFloat.add (nd2 PrimFloat.mul a0 b0) (nd2 PrimFloat.mul a1 b1))
    (nd2 PrimFloat.mul a2 b2).

(** Lines 200-214: the unit vector of a corner *)
Definition corner_vector (ll : ndval * ndval) : vec3 :=
  let lon := fst ll in
  let lat := snd ll in
  (nd2 PrimFloat.mul (nd1 (np_cos lm) (nd1 deg2rad lat)) (nd1 (np_cos lm) (nd1 deg2rad lon)),
   nd2 PrimFloat.mul (nd1 (np_cos lm) (nd1 deg2rad lat)) (nd1 (np_sin lm) (nd1 deg2rad lon)),
   nd1 (np_sin lm) (nd1 deg2rad lat)).

(** Lines 218-226 *)
Definition solid_angle (r1 r2 r3 r4 : vec3) : ndval :=
  let cross1 := cross r1 r2 in
  let cross2 := cross r3 r4 in
  let numerator1 := dot cross1 r3 in
  let numerator2 := dot cross2 r1 in
  let solid_angle1 :=
    nd2 PrimFloat.mul (Scalar 2)
      (nd2 (np_arctan2 lm) numerator1
         (nd2 PrimFloat.add
            (nd2 PrimFloat.add (nd2 PrimFloat.add (dot r1 r2) (dot r2 r3)) (dot r3 r1))
            (Scalar 1))) in
  let solid_angle2 :=
    nd2 PrimFloat.mul (Scalar 2)
      (nd2 (np_arctan2 lm) numerator2
         (nd2 PrimFloat.add
            (nd2 PrimFloat.add (nd2 PrimFloat.add (dot r3 r4) (dot r4 r1)) (dot r3 r1))
            (Scalar 1))) in
  nd2 PrimFloat.add solid_angle1 solid_angle2.

(** [r = 6.957e10 * u.cm]; the unit is not modelled, areas are in cm^2. *)
Definition r_cm : float := 69570000000.

(** [x - .5], [x + .5] on an argument *)
Definition minus_half (n : pynum) : M pynum :=
  let* f := lift (to_float n) in ret (PyFloat (f - 0.5)).
Definition plus_half (n : pynum) : M pynum :=
  let* f := lift (to_float n) in ret (PyFloat (f + 0.5)).

(** [CRD.eoa], lines 173-235 *)
Definition eoa (a : args) : M ndval :=
  let* corners :=
    match fst a with
    | Arr d =>
        let* UL := heliographic (Arr d, [PyFloat (-0.5); PyFloat (-0.5)]) in
        let* LL := heliographic (Arr d, [PyFloat 0.5; PyFloat (-0.5)]) in
        let* LR := heliographic (Arr d, [PyFloat 0.5; PyFloat 0.5]) in
        let* UR := heliographic (Arr d, [PyFloat (-0.5); PyFloat 0.5]) in
        ret (UL, LL, LR, UR)
    | Num x =>
        let* y := arg a 1%nat in
        let* xm := minus_half x in
        let* ym := minus_half y in
        let* UL := heliographic (Num xm, [ym]) in
        let* xp := plus_half x in
        let* ym := minus_half y in
        let* LL := heliographic (Num xp, [ym]) in
        let* xp := plus_half x in
        let* yp := plus_half y in
        let* LR := heliographic (Num xp, [yp]) in
        let* xm := minus_half x in
        let* yp := plus_half y in
        let* UR := heliographic (Num xm, [yp]) in
        ret (UL, LL, LR, UR)
    end in
  let '(UL, LL, LR, UR) := corners in
  let r1 := corner_vector UL in
  let r2 := corner_vector LL in
  let r3 := corner_vector LR in
  let r4 := corner_vector UR in
  let omega := solid_angle r1 r2 r3 r4 in
  let value := nd1 PrimFloat.abs (nd2 PrimFloat.mul (Scalar (square r_cm)) omega) in
  match fst a with
  | Arr _ =>
      let* _ := setattr (set_area value) in
      let* rg_ := getattr rg in
      let* rsun_ := getattr rsun in
      match rg_ with
      | Some g =>
          let ind := where_gt (Grid g) rsun_ in
          let* masked := lift (setitem_at value ind nan) in
          let* _ := setattr (set_area masked) in
          ret masked
      | None => raise (AttributeError "rg")
      end
  | Num _ => ret value
  end.

(** Calling the attribute [self.area]: the class has no method of that name,
    the attribute exists only once [eoa] has stored an array in it, and an
    array is not callable. *)
Definition call_area (a : args) : M ndval :=
  let* f := getattr area in
  match f with
  | Some _ => raise TypeError
  | None => raise (AttributeError "area")
  end.

(** [CRD.magnetic_flux], lines 237-243 *)
Definition magnetic_flux (a : args) : M ndval :=
  let* area_ := call_area a in
  let* field := los_corr a in
  let* _ :=
    if isinstance_ndarray (fst a) then
      setattr (set_mgnt_flux (nd2 PrimFloat.mul area_ field))
    else ret tt in
  ret (nd2 PrimFloat.mul area_ field).

End Methods.

(** ** A reference libm

    Polynomial implementations in binary64, close to the platform's functions
    (an error of the order of 1e-16 on the arguments met here).  They serve
    to run the model on concrete images; the general theorems hold for every
    libm. *)

Module LibmRef.

Local Open Scope float_scope.

Definition half_pi : float := NPY_PI / 2.

(** the nearest integer, for arguments below [2^51] in magnitude *)
Definition rint (x : float) : float := (x + 0x1.8p+52) - 0x1.8p+52.

Definition floor (x : float) : float :=
  let r := rint x in if PrimFloat.ltb x r then r - 1 else r.

(** Horner evaluation of [c0 + c1 t + c2 t^2 + ...] *)
Fixpoint horner (cs : list float) (t : float) : float :=
  match cs with
  | [] => 0
  | c :: cs' => c + t * horner cs' t
  end.

Definition sin_coeffs : list float :=
  [ 1; -1 / 6; 1 / 120; -1 / 5040; 1 / 362880; -1 / 39916800;
    1 / 6227020800; -1 / 1307674368000; 1 / 355687428096000 ].

Definition cos_coeffs : list float :=
  [ 1; -1 / 2; 1 / 24; -1 / 720; 1 / 40320; -1 / 3628800;
    1 / 479001600; -1 / 87178291200; 1 / 20922789888000 ].

(** on [-pi/4, pi/4] *)
Definition sin_kernel (r : float) : float := r * horner sin_coeffs (r * r).
Definition cos_kernel (r : float) : float := horner cos_coeffs (r * r).

(** [x = k * pi/2 + r] with [r] in [-pi/4, pi/4]; returns [(k mod 4, r)] *)
Definition quadrant (x : float) : float * float :=
  let k := rint (x / half_pi) in
  (k - 4 * floor (k / 4), x - k * half_pi).

Definition sin (x : float) : float :=
  let (q, r) := quadrant x in
  if PrimFloat.eqb q 0 then sin_kernel r
  else if PrimFloat.eqb q 1 then cos_kernel r
  else if PrimFloat.eqb q 2 then - sin_kernel r
  else if PrimFloat.eqb q 3 then - cos_kernel r
  else nan.

Definition cos (x : float) : float :=
  let (q, r) := quadrant x in
  if PrimFloat.eqb q 0 then cos_kernel r
  else if PrimFloat.eqb q 1 then - sin_kernel r
  else if PrimFloat.eqb q 2 then - cos_kernel r
  else if PrimFloat.eqb q 3 then sin_kernel r
  else nan.

Definition tan (x : float) : float := sin x / cos x.

Definition atan_coeffs : list float :=
  [ 1; -1 / 3; 1 / 5; -1 / 7; 1 / 9; -1 / 11; 1 / 13; -1 / 15; 1 / 17;
    -1 / 19; 1 / 21; -1 / 23; 1 / 25 ].

(** [atan t = 2 atan (t / (1 + sqrt (1 + t^2)))] *)
Definition halve (t : float) : float := t / (1 + PrimFloat.sqrt (1 + t * t)).

(** on [-1, 1] *)
Definition atan_unit (t : float) : float :=
  let u := halve (halve t) in
  4 * (u * horner atan_coeffs (u * u)).

Definition atan (t : float) : float :=
  if PrimFloat.ltb 1 t then half_pi - atan_unit (1 / t)
  else if PrimFloat.ltb t (-1) then - half_pi - atan_unit (1 / t)
  else atan_unit t.

(** the sign bit, also of a zero *)
Definition negative (x : float) : bool :=
  PrimFloat.ltb x 0 || (PrimFloat.eqb x 0 && PrimFloat.ltb (1 / x) 0).

Definition arctan2 (y x : float) : float :=
  if PrimFloat.is_nan x || PrimFloat.is_nan y then nan
  else if PrimFloat.eqb y 0 then
    if negative x then (if negative y then - NPY_PI else NPY_PI) else y
  else if PrimFloat.is_infinity x && PrimFloat.is_infinity y then
    let q := if negative x then 3 * (NPY_PI / 4) else NPY_PI / 4 in
    if negative y then - q else q
  else if PrimFloat.eqb x 0 then
    if negative y then - half_pi else half_pi
  else if PrimFloat.ltb 0 x then atan (y / x)
  else if negative y then atan (y / x) - NPY_PI
  else atan (y / x) + NPY_PI.

Definition arcsin (x : float) : float :=
  arctan2 x (PrimFloat.sqrt ((1 - x) * (1 + x))).

(** [pow] at the exponents 0, 1 and 2, correctly rounded; the program
    raises to the power 2 only. *)
Definition pow (x y : float) : float :=
  if PrimFloat.eqb y 2 then x * x
  else if PrimFloat.eqb y 1 then x
  else if PrimFloat.eqb y 0 then 1
  else nan.

End LibmRef.

Definition libm_ref : libm :=
  {| np_tan := LibmRef.tan; np_sin := LibmRef.sin; np_cos := LibmRef.cos;
     np_arcsin := LibmRef.arcsin; np_arctan2 := LibmRef.arctan2;
     np_pow := LibmRef.pow |}.

Definition sunpy_constants : sun_constants :=
  {| RSUN_METERS := 695700000; DSUN_METERS := 149597870700 |}.

(** * Vocabulary of the properties *)

(** ** Header keys *)

(** The four required fields, each with its short key and its instrument's
    key, and the attribute of the object that receives the value. *)
Inductive field : Type := FB0 | FL0 | FX0 | FY0.

Definition short_key (f : field) : string :=
  match f with FB0 => "B0" | FL0 => "L0" | FX0 => "X0" | FY0 => "Y0" end.
Definition full_key (f : field) : string :=
  match f with FB0 => "OBS_B0" | FL0 => "OBS_L0" | FX0 => "IMG_X0" | FY0 => "IMG_Y0" end.
Definition attribute (f : field) : CRD -> float :=
  match f with FB0 => B0 | FL0 => L0 | FX0 => X0 | FY0 => Y0 end.

(** the value of the first key found *)
Definition first_found (m : gmap string float) (f : field) : option float :=
  match m !! short_key f with
  | Some v => Some v
  | None => m !! full_key f
  end.

(** the radius needs the key [SCALE] for the one detector that reports it in
    another unit *)
Definition radius_available (im : Map) : Prop :=
  detector im = "SPMG" -> is_Some (meta im !! "SCALE").

(** ** Shapes and elements of arrays *)

Definition shape (h w : nat) (g : grid) : Prop :=
  length g = h /\ Forall (fun row => length row = w) g.

Definition ndshape (h w : nat) (v : ndval) : Prop :=
  match v with
  | Grid g => shape h w g
  | Scalar _ => False
  end.

(** the element at [(i, j)], a scalar being broadcast *)
Definition nd_at (v : ndval) (i j : nat) : option float :=
  match v with
  | Scalar a => Some a
  | Grid g => at2 g i j
  end.

Definition lift2 (f : float -> float -> float) (a b : option float) : option float :=
  match a, b with
  | Some x, Some y => Some (f x y)
  | _, _ => None
  end.

(** the corner of a pixel: longitude and latitude at [(i, j)] *)
Definition ll_at (ll : ndval * ndval) (i j : nat) : option (float * float) :=
  match nd_at (fst ll) i j, nd_at (snd ll) i j with
  | Some lon, Some lat => Some (lon, lat)
  | _, _ => None
  end.

(** ** The call on the image *)

Definition xdim (self : CRD) : nat := fst (dimensions (im_raw self)).
Definition ydim (self : CRD) : nat := snd (dimensions (im_raw self)).

(** The float that lines 84-85 add to a row of [len] entries for the
    argument [n]: Python's conversion of [n], which can fail on a row with
    entries only (an empty row converts nothing, and the value is then
    immaterial). *)
Definition offset_at (len : nat) (n : pynum) : outcome float :=
  match len, to_float n with
  | 0, Raise _ => Return 0%float
  | _, r => r
  end.

(** The offsets a call on the image passes as [args[1]] and [args[2]]: both
    or none (lines 83-96). *)
Definition offsets (self : CRD) (rest : list pynum) : outcome (option (float * float)) :=
  match rest with
  | a1 :: more =>
      obind (offset_at (xdim self) a1) (fun dx =>
        match more with
        | a2 :: _ => obind (offset_at (ydim self) a2) (fun dy => Return (Some (dx, dy)))
        | [] => Return None
        end)
  | [] => Return None
  end.

(** which of the two offsets makes its row an array of Python objects *)
Definition object_offsets (rest : list pynum) : bool * bool :=
  match rest with
  | a1 :: a2 :: _ => (object_offset a1, object_offset a2)
  | _ => (false, false)
  end.

(** every offset is a float or an int of 64 bits, so that the arrays are
    arrays of floats *)
Definition float_offsets (rest : list pynum) : Prop :=
  object_offsets rest = (false, false).

(** The scaled pixel offsets of lines 84-85 and 91-92 *)
Definition xrow_of (self : CRD) (off : option (float * float)) : list float :=
  let xScl := fst (scale (im_raw self)) in
  fmap (M:=list)
    (fun j => match off with
              | Some (dx, _) => (j - X0 self + dx) * xScl
              | None => (j - X0 self) * xScl
              end)%float
    (arange (fst (dimensions (im_raw self)))).

Definition yrow_of (self : CRD) (off : option (float * float)) : list float :=
  let yScl := snd (scale (im_raw self)) in
  fmap (M:=list)
    (fun i => match off with
              | Some (_, dy) => (i - Y0 self + dy) * yScl
              | None => (i - Y0 self) * yScl
              end)%float
    (arange (snd (dimensions (im_raw self)))).

Definition xg_of (self : CRD) (off : option (float * float)) : grid :=
  fst (meshgrid (xrow_of self off) (yrow_of self off)).
Definition yg_of (self : CRD) (off : option (float * float)) : grid :=
  snd (meshgrid (xrow_of self off) (yrow_of self off)).
Definition rg_of (self : CRD) (off : option (float * float)) : grid :=
  grid_map PrimFloat.sqrt
    (grid_zip PrimFloat.add (grid_map square (xg_of self off))
       (grid_map square (yg_of self off))).

(** the object after lines 86-87 *)
Definition meshed (self : CRD) (off : option (float * float)) : CRD :=
  set_rg (rg_of self off) (set_xg_yg (xg_of self off) (yg_of self off) self).

(** the object after lines 141-143 *)
Definition cached (ll : ndval * ndval) (s : CRD) : CRD :=
  match lonh s with
  | Some _ => s
  | None => set_lath (nd1 rad2deg (snd ll)) (set_lonh (nd1 rad2deg (fst ll)) s)
  end.

(** what line 87 raises on the grids of the offsets [off], if anything *)
Definition root_fails (lm : libm) (rest : list pynum) (self : CRD)
    (off : option (float * float)) : outcome unit :=
  sqrt_of_objects lm (fst (object_offsets rest)) (snd (object_offsets rest))
    (xg_of self off) (yg_of self off).

(** the object after line 86, when line 87 raises *)
Definition unrooted (self : CRD) (off : option (float * float)) : CRD :=
  set_xg_yg (xg_of self off) (yg_of self off) self.

(** The call on the image, in closed form. *)
Definition heliographic_image (lm : libm) (rest : list pynum) (self : CRD)
  : CRD * outcome (ndval * ndval) :=
  match offsets self rest with
  | Raise e => (self, Raise e)
  | Return off =>
      match root_fails lm rest self off with
      | Raise e => (unrooted self off, Raise e)
      | Return _ =>
          match project lm (B0 self) (rsun self)
                  (Grid (xg_of self off)) (Grid (grid_map PrimFloat.opp (yg_of self off))) with
          | Raise e => (meshed self off, Raise e)
          | Return ll =>
              (cached ll (meshed self off),
               Return (nd1 rad2deg (fst ll), nd1 rad2deg (snd ll)))
          end
      end
  end.

(** The longitudes and latitudes, in degrees, that a call on the image
    returns for the offsets [off]. *)
Definition lon_lat (lm : libm) (self : CRD) (off : option (float * float))
  : outcome (ndval * ndval) :=
  obind (project lm (B0 self) (rsun self)
           (Grid (xg_of self off)) (Grid (grid_map PrimFloat.opp (yg_of self off))))
        (fun ll => Return (nd1 rad2deg (fst ll), nd1 rad2deg (snd ll))).

(** ** What the methods read and keep *)

(** The attributes no method writes. *)
Definition inputs (self : CRD) : Map * float * float * float * float * float :=
  (im_raw self, B0 self, L0 self, X0 self, Y0 self, rsun self).

(** [keeps s s']: from [s] to [s'] the attributes read by the methods are
    the same, and a cached longitude grid stays with its latitude grid. *)
Definition keeps (s s' : CRD) : Prop :=
  inputs s' = inputs s /\
  forall v, lonh s = Some v -> lonh s' = Some v /\ lath s' = lath s.

Definition preserves {A} (m : M A) : Prop := forall s, keeps s (fst (m s)).

(** The method calls a program can make on an object, and the object after
    a sequence of them. *)
Inductive call : Type :=
  | Heliographic (a : args)
  | LosCorr (a : args)
  | Eoa (a : args)
  | MagneticFlux (a : args).

Definition run (lm : libm) (sc : sun_constants) (c : call) (self : CRD) : CRD :=
  match c with
  | Heliographic a => fst (heliographic lm a self)
  | LosCorr a => fst (los_corr lm sc a self)
  | Eoa a => fst (eoa lm a self)
  | MagneticFlux a => fst (magnetic_flux lm sc a self)
  end.

Definition run_all (lm : libm) (sc : sun_constants) (cs : list call) (self : CRD) : CRD :=
  fold_left (fun s c => run lm sc c s) cs self.

(** ** The area of one pixel *)

(** The scalar computation of lines 200-226 for one pixel, from the
    longitude and latitude (in degrees) of its four corners. *)
Definition vector (lm : libm) (ll : float * float) : float * float * float :=
  let lon := fst ll in
  let lat := snd ll in
  (np_cos lm (deg2rad lat) * np_cos lm (deg2rad lon),
   np_cos lm (deg2rad lat) * np_sin lm (deg2rad lon),
   np_sin lm (deg2rad lat))%float.

Definition cross3 (a b : float * float * float) : float * float * float :=
  let '(a0, a1, a2) := a in
  let '(b0, b1, b2) := b in
  (a1 * b2 - a2 * b1, a2 * b0 - a0 * b2, a0 * b1 - a1 * b0)%float.

Definition dot3 (a b : float * float * float) : float :=
  let '(a0, a1, a2) := a in
  let '(b0, b1, b2) := b in
  (a0 * b0 + a1 * b1 + a2 * b2)%float.

(** The triangles (r1, r2, r3) and (r3, r4, r1), each by the formula of
    Van Oosterom and Strackee, with the sums in the order of the code. *)
Definition quad_solid_angle (lm : libm) (r1 r2 r3 r4 : float * float * float) : float :=
  (2 * np_arctan2 lm (dot3 (cross3 r1 r2) r3)
         (dot3 r1 r2 + dot3 r2 r3 + dot3 r3 r1 + 1) +
   2 * np_arctan2 lm (dot3 (cross3 r3 r4) r1)
         (dot3 r3 r4 + dot3 r4 r1 + dot3 r3 r1 + 1))%float.

Definition pixel_area (lm : libm) (c1 c2 c3 c4 : float * float) : float :=
  PrimFloat.abs
    (square r_cm *
     quad_solid_angle lm (vector lm c1) (vector lm c2) (vector lm c3) (vector lm c4))%float.

(** the array of line 230, before the mask *)
Definition area_value (lm : libm) (UL LL LR UR : ndval * ndval) : ndval :=
  nd1 PrimFloat.abs
    (nd2 PrimFloat.mul (Scalar (square r_cm))
       (solid_angle lm (corner_vector lm UL) (corner_vector lm LL)
          (corner_vector lm LR) (corner_vector lm UR))).

(** The offsets of the four corners, lines 187-190 *)
Definition off_UL : option (float * float) := Some (-0.5, -0.5)%float.
Definition off_LL : option (float * float) := Some (0.5, -0.5)%float.
Definition off_LR : option (float * float) := Some (0.5, 0.5)%float.
Definition off_UR : option (float * float) := Some (-0.5, 0.5)%float.

(** Longitude and latitude of the corner at offset [(dx, dy)] of pixel
    [(i, j)], as [heliographic] returns them for the image. *)
Definition corner (lm : libm) (self : CRD) (d : grid) (dx dy : float) (i j : nat)
  : option (float * float) :=
  match snd (heliographic lm (Arr d, [PyFloat dx; PyFloat dy]) self) with
  | Return ll => ll_at ll i j
  | Raise _ => None
  end.

(** The distance from the disk centre that line 231 compares with the
    radius: the one of the last mesh grid, built for the corner at
    [(-0.5, +0.5)] of the pixel, in the units of the pixel scale. *)
Definition corner_distance (self : CRD) (i j : nat) : float :=
  PrimFloat.sqrt
    (square ((Z2float (Z.of_nat j) - X0 self + -0.5) * fst (scale (im_raw self))) +
     square ((Z2float (Z.of_nat i) - Y0 self + 0.5) * snd (scale (im_raw self))))%float.

(** The distance of the pixel itself from the disk centre, as the mesh grid
    of a call without offsets has it. *)
Definition radial_distance (self : CRD) (i j : nat) : float :=
  PrimFloat.sqrt
    (square ((Z2float (Z.of_nat j) - X0 self) * fst (scale (im_raw self))) +
     square ((Z2float (Z.of_nat i) - Y0 self) * snd (scale (im_raw self))))%float.

(** ** A small image

    A 4 x 4 image with the disk centre in its middle, one arc second per
    pixel and an apparent radius of 1.25 arc seconds.  The header has both
    keys of X0, the short key of B0 only and the instrument's key of L0 and
    Y0 only. *)

Definition small_map : Map :=
  {| meta := <["B0" := 0%float]> (<["OBS_L0" := 0%float]>
               (<["X0" := 1.5%float]> (<["IMG_X0" := 7%float]>
                 (<["IMG_Y0" := 1.5%float]> ∅))));
     data := [ [1; 2; 3; 4]; [5; 6; 7; 8]; [9; 10; 11; 12]; [13; 14; 15; 16] ]%float;
     scale := (1, 1)%float;
     dimensions := (4, 4);
     detector := "HMI";
     rsun_obs := 1.25%float |}.

Definition small_crd : CRD :=
  {| im_raw := small_map; B0 := 0; L0 := 0; X0 := 1.5; Y0 := 1.5; rsun := 1.25;
     xg := None; yg := None; rg := None; lonh := None; lath := None;
     im_corr := None; area := None; mgnt_flux := None |}%float.

(** ** The projection of one pixel of an image

    Lines 104-135 for the pixel with offsets [x], [y] from the disk centre.
    [first_row] tells whether the pixel lies in row 0 of the image, the one
    row the index of line 113 selects, and [clamp] whether line 120 found
    something to clamp. *)

Definition Robs_of (lm : libm) (radius : float) : float :=
  (1 / np_tan lm (deg2rad (radius / 60)))%float.

Definition max_rat2_of (lm : libm) (radius : float) : float :=
  (np_tan lm (np_arcsin lm (1 / Robs_of lm radius)) *
   np_tan lm (np_arcsin lm (1 / Robs_of lm radius)))%float.

Definition pixel_rat2 (lm : libm) (x y : float) : float :=
  (square (np_tan lm (deg2rad (x / 60))) + square (np_tan lm (deg2rad (y / 60))))%float.

Definition pixel_project (lm : libm) (radius : float) (first_row clamp : bool)
    (x y : float) : float * float :=
  let Robs := Robs_of lm radius in
  let xxat := np_tan lm (deg2rad (x / 60)) in
  let yyat := np_tan lm (deg2rad (y / 60)) in
  let rat2 := pixel_rat2 lm x y in
  let phi := if first_row then np_arctan2 lm xxat yyat else (0 * rat2)%float in
  let max_rat2 := max_rat2_of lm radius in
  let rat2 := if clamp && PrimFloat.ltb max_rat2 rat2 then max_rat2 else rat2 in
  let ras2 := if first_row then (1 / (1 + 1 / rat2))%float else (0 * rat2)%float in
  let d1 := (1 - ras2)%float in
  let d2 := (1 - np_pow lm Robs 2 * ras2)%float in
  let x' := (ras2 * Robs + PrimFloat.sqrt d1 * PrimFloat.sqrt d2)%float in
  let rr := PrimFloat.sqrt (rat2 * Robs) in
  let t1 := (np_sin lm phi * rr)%float in
  let t2 := (np_cos lm phi * rr)%float in
  (np_arctan2 lm x' t1, np_arcsin lm t2).

(** the array [rat2] of line 111 and the test of line 120 on it *)
Definition rat2_grid (lm : libm) (x y : grid) : grid :=
  grid_zip PrimFloat.add
    (grid_map square
       (grid_map (np_tan lm) (grid_map deg2rad (grid_map (fun v => v / 60)%float x))))
    (grid_map square
       (grid_map (np_tan lm) (grid_map deg2rad (grid_map (fun v => v / 60)%float y)))).

Definition clamps (lm : libm) (radius : float) (x y : grid) : bool :=
  any_row (where_gt (Grid (rat2_grid lm x y)) (max_rat2_of lm radius)).

(** the offsets of pixel [(i, j)] from the disk centre, lines 84-96 *)
Definition pixel_x (self : CRD) (off : option (float * float)) (j : nat) : float :=
  match off with
  | Some (dx, _) => (Z2float (Z.of_nat j) - X0 self + dx) * fst (scale (im_raw self))
  | None => (Z2float (Z.of_nat j) - X0 self) * fst (scale (im_raw self))
  end%float.

Definition pixel_y (self : CRD) (off : option (float * float)) (i : nat) : float :=
  PrimFloat.opp
    match off with
    | Some (_, dy) => (Z2float (Z.of_nat i) - Y0 self + dy) * snd (scale (im_raw self))
    | None => (Z2float (Z.of_nat i) - Y0 self) * snd (scale (im_raw self))
    end%float.

(** ** Construction, case by case *)

(** the first of the four fields, in the order of lines 30-45, that has
    neither key *)
Definition first_missing (m : gmap string float) : option field :=
  match first_found m FB0, first_found m FL0, first_found m FX0, first_found m FY0 with
  | None, _, _, _ => Some FB0
  | Some _, None, _, _ => Some FL0
  | Some _, Some _, None, _ => Some FX0
  | Some _, Some _, Some _, None => Some FY0
  | Some _, Some _, Some _, Some _ => None
  end.

(** the object of line 49, with nothing derived yet *)
Definition fresh (im : Map) (b0 l0 x0 y0 r : float) : CRD :=
  {| im_raw := im; B0 := b0; L0 := l0; X0 := x0; Y0 := y0; rsun := r;
     xg := None; yg := None; rg := None; lonh := None; lath := None;
     im_corr := None; area := None; mgnt_flux := None |}.

(** ** What a call leaves alone *)

(** the attributes that hold results of [los_corr], [eoa] and
    [magnetic_flux] *)
Definition same_products (s s' : CRD) : Prop :=
  im_corr s' = im_corr s /\ mgnt_flux s' = mgnt_flux s.

Definition respects (R : CRD -> CRD -> Prop) {A} (m : M A) : Prop :=
  forall s, R s (fst (m s)).

(** an image without rows *)
Definition empty_crd : CRD :=
  {| im_raw := {| meta := ∅; data := []; scale := (1, 1)%float;
                  dimensions := (4%nat, 0%nat);
                  detector := "HMI"; rsun_obs := 1.25%float |};
     B0 := 0%float; L0 := 0%float; X0 := 1.5%float; Y0 := 0%float; rsun := 1.25%float;
     xg := None; yg := None; rg := None; lonh := None; lath := None;
     im_corr := None; area := None; mgnt_flux := None |}.

(** ** The area grid in closed form *)

Definition eoa_image_result (lm : libm) (self : CRD) : outcome ndval :=
  obind (lon_lat lm self off_UL) (fun UL =>
  obind (lon_lat lm self off_LL) (fun LL =>
  obind (lon_lat lm self off_LR) (fun LR =>
  obind (lon_lat lm self off_UR) (fun UR =>
  setitem_at (area_value lm UL LL LR UR)
    (where_gt (Grid (rg_of self off_UR)) (rsun self)) nan)))).

(** what the pixel grid and the projection are computed from *)
Definition geometry (self : CRD) : float * float * (nat * nat) * float * float * float :=
  (scale (im_raw self), dimensions (im_raw self), X0 self, Y0 self, rsun self).

(** the small image seen under another tilt, with other intensities *)
Definition tilted_crd : CRD :=
  {| im_raw := {| meta := ∅; data := [ [0; 0; 0; 0] ]%float; scale := (1, 1)%float;
                  dimensions := (4%nat, 4%nat);
                  detector := "SPMG"; rsun_obs := 7%float |};
     B0 := 30%float; L0 := 45%float; X0 := 1.5%float; Y0 := 1.5%float;
     rsun := 1.25%float;
     xg := None; yg := None; rg := Some []; lonh := Some (Scalar 0%float); lath := None;
     im_corr := None; area := None; mgnt_flux := None |}.

(** ** Objects that method calls leave

    The derived attributes of an object belong together: [xg] and [yg] are
    the mesh grids of one pair of offsets and [rg] is a grid of radial
    distances, the cached longitudes and latitudes exist together, every
    array held has the shape of the image, and an attribute exists only when
    the ones computed before it do.  A call whose line 87 raises leaves [xg]
    and [yg] written and [rg] as it was; [strict] asks [rg] to belong to the
    offsets of [xg] and [yg]. *)

Definition mesh_consistent (strict : bool) (s : CRD) : Prop :=
  (xg s = None /\ yg s = None /\ rg s = None) \/
  exists off,
    xg s = Some (xg_of s off) /\ yg s = Some (yg_of s off) /\
    if strict then rg s = Some (rg_of s off)
    else rg s = None \/ exists off', rg s = Some (rg_of s off').

Definition image_shaped (s : CRD) (o : option ndval) : Prop :=
  match o with
  | Some v => ndshape (ydim s) (xdim s) v
  | None => True
  end.

Definition consistent (strict : bool) (s : CRD) : Prop :=
  mesh_consistent strict s /\
  image_shaped s (lonh s) /\ image_shaped s (lath s) /\ image_shaped s (area s) /\
  (is_Some (lonh s) <-> is_Some (lath s)) /\
  (is_Some (lonh s) -> is_Some (rg s)) /\
  (is_Some (area s) -> is_Some (lonh s)).

(** a call whose arrays are arrays of floats: any call but a projection of
    the image with an int offset beyond 64 bits *)
Definition float_call (c : call) : Prop :=
  match c with
  | Heliographic (Arr _, rest) => float_offsets rest
  | _ => True
  end.

(** * Properties *)

(** ** Construction and the header keys *)

Lemma meta_fallback_short m short full v :
  m !! short = Some v -> meta_fallback m short full = Return v.
Proof. unfold meta_fallback, getitem_meta. intros ->. reflexivity. Qed.

Lemma meta_fallback_full m short full v :
  m !! short = None -> m !! full = Some v -> meta_fallback m short full = Return v.
Proof. unfold meta_fallback, getitem_meta. intros -> ->. reflexivity. Qed.

Lemma meta_fallback_missing m short full :
  m !! short = None -> m !! full = None ->
  meta_fallback m short full = Raise (KeyError full).
Proof. unfold meta_fallback, getitem_meta. intros -> ->. reflexivity. Qed.

Lemma meta_fallback_cases m short full :
  (exists v, meta_fallback m short full = Return v /\
             (m !! short = Some v \/ (m !! short = None /\ m !! full = Some v))) \/
  (meta_fallback m short full = Raise (KeyError full) /\
   m !! short = None /\ m !! full = None).
Proof.
  destruct (m !! short) as [v|] eqn:Hs.
  - left. exists v. split; [now apply meta_fallback_short | now left].
  - destruct (m !! full) as [v|] eqn:Hf.
    + left. exists v. split; [now apply meta_fallback_full | now right].
    + right. split; [now apply meta_fallback_missing | done].
Qed.

Lemma first_found_fallback m f :
  meta_fallback m (short_key f) (full_key f) =
  match first_found m f with
  | Some v => Return v
  | None => Raise (KeyError (full_key f))
  end.
Proof.
  unfold first_found, meta_fallback, getitem_meta.
  destruct (m !! short_key f); [reflexivity|].
  destruct (m !! full_key f); reflexivity.
Qed.

Lemma init_unfold im :
  __init__ im =
  obind (meta_fallback (meta im) (short_key FB0) (full_key FB0)) (fun b0 =>
  obind (meta_fallback (meta im) (short_key FL0) (full_key FL0)) (fun l0 =>
  obind (meta_fallback (meta im) (short_key FX0) (full_key FX0)) (fun x0 =>
  obind (meta_fallback (meta im) (short_key FY0) (full_key FY0)) (fun y0 =>
  obind (if String.eqb (detector im) "SPMG"
         then obind (getitem_meta (meta im) "SCALE") (fun s =>
                Return (rsun_obs im / s)%float)
         else Return (rsun_obs im)) (fun r =>
  Return {| im_raw := im; B0 := b0; L0 := l0; X0 := x0; Y0 := y0; rsun := r;
            xg := None; yg := None; rg := None; lonh := None; lath := None;
            im_corr := None; area := None; mgnt_flux := None |}))))).
Proof. reflexivity. Qed.

(** C8. For each required field (B0, L0, X0, Y0) construction tries two
    header keys, the short one and then the instrument's.  It fails on a
    field, with the [KeyError] of the second key (the missing-metadata error),
    exactly when some field has neither key; and when every field has a key
    (and the radius can be read) it succeeds, each attribute holding the value
    of the first key found. *)
Theorem init_required_fields (im : Map) :
  ((exists f, __init__ im = Raise (KeyError (full_key f))) <->
   (exists f, meta im !! short_key f = None /\ meta im !! full_key f = None)) /\
  (forall f, meta_fallback (meta im) (short_key f) (full_key f) =
             match first_found (meta im) f with
             | Some v => Return v
             | None => Raise (KeyError (full_key f))
             end) /\
  ((forall f, is_Some (first_found (meta im) f)) -> radius_available im ->
   exists self, __init__ im = Return self /\
     forall f, first_found (meta im) f = Some (attribute f self)).
Proof.
  rewrite init_unfold, !first_found_fallback.
  split; [split|split; [intros f; apply first_found_fallback|]].
  - intros [f Hf].
    destruct (first_found (meta im) FB0) as [b0|] eqn:E0; cycle 1.
    { exists FB0. revert E0. unfold first_found.
      destruct (meta im !! short_key FB0); [discriminate|]. done. }
    destruct (first_found (meta im) FL0) as [l0|] eqn:E1; cycle 1.
    { exists FL0. revert E1. unfold first_found.
      destruct (meta im !! short_key FL0); [discriminate|]. done. }
    destruct (first_found (meta im) FX0) as [x0|] eqn:E2; cycle 1.
    { exists FX0. revert E2. unfold first_found.
      destruct (meta im !! short_key FX0); [discriminate|]. done. }
    destruct (first_found (meta im) FY0) as [y0|] eqn:E3; cycle 1.
    { exists FY0. revert E3. unfold first_found.
      destruct (meta im !! short_key FY0); [discriminate|]. done. }
    exfalso. revert Hf. cbn [obind].
    destruct (String.eqb (detector im) "SPMG"); cbn [obind]; [|discriminate].
    unfold getitem_meta. destruct (meta im !! "SCALE"); cbn [obind].
    + discriminate.
    + intros [= H]. destruct f; discriminate H.
  - intros [f [Hs Hf]].
    assert (Hnone : first_found (meta im) f = None).
    { unfold first_found. now rewrite Hs. }
    destruct (first_found (meta im) FB0) eqn:E0; cbn [obind];
      [|exists FB0; reflexivity].
    destruct (first_found (meta im) FL0) eqn:E1; cbn [obind];
      [|exists FL0; reflexivity].
    destruct (first_found (meta im) FX0) eqn:E2; cbn [obind];
      [|exists FX0; reflexivity].
    destruct (first_found (meta im) FY0) eqn:E3; cbn [obind];
      [|exists FY0; reflexivity].
    destruct f; congruence.
  - intros Hall Hr.
    destruct (Hall FB0) as [b0 E0], (Hall FL0) as [l0 E1],
             (Hall FX0) as [x0 E2], (Hall FY0) as [y0 E3].
    rewrite E0, E1, E2, E3. cbn [obind].
    destruct (String.eqb (detector im) "SPMG") eqn:Ed.
    + apply String.eqb_eq in Ed. destruct (Hr Ed) as [s Hs].
      unfold getitem_meta. rewrite Hs. cbn [obind].
      eexists. split; [reflexivity|]. intros []; assumption.
    + cbn [obind]. eexists. split; [reflexivity|]. intros []; assumption.
Qed.

(** ** The pixel case of [heliographic] *)

Lemma project_scalar lm b0 radius x y :
  project lm b0 radius (Scalar x) (Scalar y) = Raise IndexError.
Proof. reflexivity. Qed.

Lemma to_float_cases n :
  (exists f, to_float n = Return f) \/ to_float n = Raise OverflowError.
Proof.
  destruct n as [z|f]; cbn [to_float].
  - destruct (PrimFloat.is_infinity (Z2float z)); eauto.
  - eauto.
Qed.

(** A call on a pixel raises, at line 101 (a missing or too large argument)
    or at line 114, and writes nothing. *)
Lemma heliographic_Num lm a0 rest self :
  heliographic lm (Num a0, rest) self = (self, Raise IndexError) \/
  heliographic lm (Num a0, rest) self = (self, Raise OverflowError).
Proof.
  unfold heliographic, bind, getattr, arg, lift, ret, raise. cbn [fst snd].
  destruct rest as [|a1 rest]; cbn; [now left|].
  destruct (to_float_cases a1) as [[c ->]| ->]; [|now right].
  destruct (to_float_cases a0) as [[r ->]| ->]; [|now right].
  now left.
Qed.

Lemma heliographic_Num_floats lm r c rest self :
  heliographic lm (Num (PyFloat r), PyFloat c :: rest) self = (self, Raise IndexError).
Proof. reflexivity. Qed.

Lemma heliographic_Num_state lm a0 rest self :
  fst (heliographic lm (Num a0, rest) self) = self.
Proof. destruct (heliographic_Num lm a0 rest self) as [-> | ->]; reflexivity. Qed.

Lemma heliographic_Num_raises lm a0 rest self :
  is_Return (snd (heliographic lm (Num a0, rest) self)) = false.
Proof. destruct (heliographic_Num lm a0 rest self) as [-> | ->]; reflexivity. Qed.

(** The pixels with integer coordinates, as in the docstring's
    [aia.heliographic(320, 288)]. *)
Lemma heliographic_Num_ints lm (row col : Z) rest self :
  PrimFloat.is_infinity (Z2float row) = false ->
  PrimFloat.is_infinity (Z2float col) = false ->
  heliographic lm (Num (PyInt row), PyInt col :: rest) self = (self, Raise IndexError).
Proof.
  intros Hr Hc.
  unfold heliographic, bind, getattr, arg, lift, ret, raise.
  cbn -[Z2float PrimFloat.is_infinity]. rewrite Hc, Hr. reflexivity.
Qed.

(** ** [los_corr], [eoa] and [magnetic_flux] on a pixel *)

Lemma bind_Raise {A B} (m : M A) (k : A -> M B) self self' e :
  m self = (self', Raise e) -> bind m k self = (self', Raise e).
Proof. unfold bind. intros ->. reflexivity. Qed.

Lemma bind_Return {A B} (m : M A) (k : A -> M B) self self' a :
  m self = (self', Return a) -> bind m k self = k a self'.
Proof. unfold bind. intros ->. reflexivity. Qed.

Lemma load_global_B0 sc self :
  load_global sc "B0" self = (self, Raise (NameError "B0")).
Proof. reflexivity. Qed.

Lemma arg_cases (a : args) k self :
  (exists n, arg a k self = (self, Return n)) \/ arg a k self = (self, Raise IndexError).
Proof. unfold arg, ret, raise. destruct (snd a !! (k - 1)); eauto. Qed.

Lemma los_corr_Num lm sc a0 rest self :
  los_corr lm sc (Num a0, rest) self = (self, Raise IndexError) \/
  los_corr lm sc (Num a0, rest) self = (self, Raise OverflowError).
Proof.
  unfold los_corr. cbn [fst].
  destruct (arg_cases (Num a0, rest) 1 self) as [[a1 Ha]|Ha].
  - destruct (heliographic_Num lm a0 [a1] self) as [H|H]; [left|right];
      apply bind_Raise; erewrite bind_Return by exact Ha; exact H.
  - left. apply bind_Raise, bind_Raise, Ha.
Qed.

(** On the image, [los_corr] reaches line 160 when the projection returns,
    and the name [B0] read there is bound nowhere. *)
Lemma los_corr_Arr lm sc d rest self :
  los_corr lm sc (Arr d, rest) self =
  match heliographic lm (Arr d, []) self with
  | (self', Return _) => (self', Raise (NameError "B0"))
  | (self', Raise e) => (self', Raise e)
  end.
Proof.
  unfold los_corr, bind at 1. cbn [fst snd].
  destruct (heliographic lm (Arr d, []) self) as [self' [ll|e]]; reflexivity.
Qed.

Lemma half_cases (h : pynum -> M pynum) n self :
  h = minus_half \/ h = plus_half ->
  (exists f, h n self = (self, Return (PyFloat f))) \/
  h n self = (self, Raise OverflowError).
Proof.
  intros [-> | ->]; unfold minus_half, plus_half, bind, lift, ret;
    destruct (to_float_cases n) as [[f ->]| ->]; eauto.
Qed.

Lemma eoa_Num lm a0 rest self :
  eoa lm (Num a0, rest) self = (self, Raise IndexError) \/
  eoa lm (Num a0, rest) self = (self, Raise OverflowError).
Proof.
  unfold eoa. cbn [fst].
  destruct (arg_cases (Num a0, rest) 1 self) as [[a1 Ha]|Ha]; cycle 1.
  { left. apply bind_Raise, bind_Raise, Ha. }
  destruct (half_cases minus_half a0 self) as [[xm Hx]|Hx]; [now left| |].
  - destruct (half_cases minus_half a1 self) as [[ym Hy]|Hy]; [now left| |].
    + left. apply bind_Raise. erewrite bind_Return by exact Ha.
      erewrite bind_Return by exact Hx. erewrite bind_Return by exact Hy.
      apply bind_Raise. apply heliographic_Num_floats.
    + right. apply bind_Raise. erewrite bind_Return by exact Ha.
      erewrite bind_Return by exact Hx. apply bind_Raise, Hy.
  - right. apply bind_Raise. erewrite bind_Return by exact Ha.
    apply bind_Raise, Hx.
Qed.

(** C1. The projection is documented for a pixel pair and for the image
    ([aia.heliographic(320, 288)]), and the specification lets it return for
    every input.  On a pixel pair it never returns: every such call raises,
    [IndexError] at line 114 where the numpy scalar is indexed (or at line
    101 when the second coordinate is missing), [OverflowError] when an
    integer coordinate exceeds the floats. *)
Theorem heliographic_pixel_never_returns (lm : libm) (self : CRD)
    (row : pynum) (rest : list pynum) :
  (heliographic lm (Num row, rest) self = (self, Raise IndexError) \/
   heliographic lm (Num row, rest) self = (self, Raise OverflowError)) /\
  heliographic lm (Num (PyInt 320), [PyInt 288]) self = (self, Raise IndexError).
Proof.
  split; [apply heliographic_Num|].
  apply heliographic_Num_ints; reflexivity.
Qed.

(** C5. Projecting the pixel of the disk centre raises [IndexError] instead
    of returning a longitude and latitude near zero, in every context; so it
    does for the pixel (512, 512) of a context with disk centre (512, 512). *)
Theorem heliographic_disk_center_raises (lm : libm) (self : CRD) :
  heliographic lm (Num (PyFloat (Y0 self)), [PyFloat (X0 self)]) self
    = (self, Raise IndexError) /\
  heliographic lm (Num (PyInt 512), [PyInt 512]) self = (self, Raise IndexError).
Proof.
  split; [apply heliographic_Num_floats|].
  apply heliographic_Num_ints; reflexivity.
Qed.

(** C2. The corrector never returns the corrected field: on a pixel the
    projection raises, and on the image line 160 reads the name [B0], which
    is bound nowhere ([self.B0] is meant), and raises [NameError]. *)
Theorem los_corr_never_returns (lm : libm) (sc : sun_constants) (a : args) (self : CRD) :
  is_Return (snd (los_corr lm sc a self)) = false /\
  (forall d rest self' ll,
     a = (Arr d, rest) -> heliographic lm (Arr d, []) self = (self', Return ll) ->
     los_corr lm sc a self = (self', Raise (NameError "B0"))).
Proof.
  split.
  - destruct a as [[a0|d] rest].
    + destruct (los_corr_Num lm sc a0 rest self) as [-> | ->]; reflexivity.
    + rewrite los_corr_Arr.
      destruct (heliographic lm (Arr d, []) self) as [self' [ll|e]]; reflexivity.
  - intros d rest self' ll -> H. rewrite los_corr_Arr, H. reflexivity.
Qed.

(** C3. The flux operation never returns the product of area and corrected
    field: its first statement calls [self.area], which is no method of the
    class ([eoa] is) and raises [AttributeError], or [TypeError] once [eoa]
    has stored an array under that name. *)
Theorem magnetic_flux_never_returns (lm : libm) (sc : sun_constants) (a : args) (self : CRD) :
  magnetic_flux lm sc a self =
    (self, Raise (match area self with
                  | None => AttributeError "area"
                  | Some _ => TypeError
                  end)).
Proof.
  unfold magnetic_flux, bind at 1, call_area, bind, getattr, raise.
  destruct (area self); reflexivity.
Qed.

(** C10. A call of [heliographic], [los_corr] or [eoa] on a pixel pair
    leaves every attribute of the object as it was. *)
Theorem pixel_calls_write_nothing (lm : libm) (sc : sun_constants) (self : CRD)
    (row : pynum) (rest : list pynum) :
  fst (heliographic lm (Num row, rest) self) = self /\
  fst (los_corr lm sc (Num row, rest) self) = self /\
  fst (eoa lm (Num row, rest) self) = self.
Proof.
  split; [|split].
  - apply heliographic_Num_state.
  - destruct (los_corr_Num lm sc row rest self) as [-> | ->]; reflexivity.
  - destruct (eoa_Num lm row rest self) as [-> | ->]; reflexivity.
Qed.

(** ** Shapes of arrays *)

Lemma shape_lookup h w g i :
  shape h w g -> i < h -> exists row, g !! i = Some row /\ length row = w.
Proof.
  intros [Hl Hf] Hi.
  destruct (lookup_lt_is_Some_2 g i) as [row Hrow]; [lia|].
  exists row. split; [done|].
  rewrite Forall_lookup in Hf. eauto.
Qed.

Lemma shape_at2 h w g i j :
  shape h w g -> (is_Some (at2 g i j) <-> i < h /\ j < w).
Proof.
  intros Hs. unfold at2. split.
  - destruct (g !! i) as [row|] eqn:Hrow; [|intros [? ?]; discriminate].
    intros Hj. destruct Hs as [Hl Hf].
    rewrite Forall_lookup in Hf. specialize (Hf _ _ Hrow).
    apply lookup_lt_Some in Hrow. apply lookup_lt_is_Some_1 in Hj. lia.
  - intros [Hi Hj]. destruct (shape_lookup h w g i Hs Hi) as [row [-> Hr]].
    apply lookup_lt_is_Some_2. lia.
Qed.

Lemma shape_grid_map h w f g : shape h w g -> shape h w (grid_map f g).
Proof.
  intros [Hl Hf]. unfold grid_map. split.
  - now rewrite length_fmap.
  - apply Forall_fmap. eapply Forall_impl; [exact Hf|].
    intros row Hr. cbn. now rewrite length_fmap.
Qed.

Lemma shape_grid_zip h w f g1 g2 :
  shape h w g1 -> shape h w g2 -> shape h w (grid_zip f g1 g2).
Proof.
  intros [Hl1 Hf1] [Hl2 Hf2]. unfold grid_zip. split.
  - rewrite length_zip_with. lia.
  - rewrite Forall_lookup in *. intros i row Hrow.
    rewrite lookup_zip_with in Hrow.
    destruct (g1 !! i) as [r1|] eqn:E1; [|discriminate].
    destruct (g2 !! i) as [r2|] eqn:E2; [|discriminate].
    cbn in Hrow. injection Hrow as <-.
    rewrite length_zip_with. rewrite (Hf1 _ _ E1), (Hf2 _ _ E2). lia.
Qed.

Lemma shape_insert h w g i row :
  shape h w g -> length row = w -> shape h w (<[i := row]> g).
Proof.
  intros [Hl Hf] Hr. split.
  - now rewrite length_insert.
  - apply Forall_insert; assumption.
Qed.

Lemma shape_meshgrid xrow yrow :
  shape (length yrow) (length xrow) (fst (meshgrid xrow yrow)) /\
  shape (length yrow) (length xrow) (snd (meshgrid xrow yrow)).
Proof.
  unfold meshgrid, shape. cbn [fst snd]. rewrite !length_fmap.
  repeat split.
  - apply Forall_fmap, Forall_forall. intros; reflexivity.
  - apply Forall_fmap, Forall_forall. intros; cbn. now rewrite length_fmap.
Qed.

Lemma length_arange n : length (arange n) = n.
Proof. unfold arange. now rewrite length_fmap, length_seq. Qed.

Lemma nd1_shape h w f v : ndshape h w v -> ndshape h w (nd1 f v).
Proof. destruct v; [easy|]. apply shape_grid_map. Qed.

Lemma nd2_shape h w f v1 v2 :
  ndshape h w v1 -> ndshape h w v2 -> ndshape h w (nd2 f v1 v2).
Proof. destruct v1, v2; try easy. apply shape_grid_zip. Qed.

Lemma nd2_shape_l h w f v c : ndshape h w v -> ndshape h w (nd2 f v (Scalar c)).
Proof. destruct v; [easy|]. apply shape_grid_map. Qed.

Lemma nd2_shape_r h w f v c : ndshape h w v -> ndshape h w (nd2 f (Scalar c) v).
Proof. destruct v; [easy|]. apply shape_grid_map. Qed.

Lemma power2_shape lm h w v : ndshape h w v -> ndshape h w (power2 lm v).
Proof. destruct v; [easy|]. apply shape_grid_map. Qed.

Create HintDb shapes.
#[local] Hint Resolve nd1_shape nd2_shape nd2_shape_l nd2_shape_r power2_shape
  shape_grid_map shape_grid_zip : shapes.

(** ** Indexing *)

Lemma getitem_rows_0 h w v :
  ndshape h w v -> 0 < h ->
  exists r, getitem_rows v (where_bool true) = Return r /\ ndshape 1 w r.
Proof.
  destruct v as [|g]; [easy|]. intros Hs Hh.
  destruct (shape_lookup h w g 0 Hs Hh) as [row [Hrow Hlen]].
  exists (Grid [row]). cbn. rewrite Hrow. cbn. split; [reflexivity|].
  split; [reflexivity|]. now constructor.
Qed.

Lemma setitem_rows_0 h w v r :
  ndshape h w v -> ndshape 1 w r -> 0 < h ->
  exists v', setitem_rows v (where_bool true) r = Return v' /\ ndshape h w v'.
Proof.
  destruct v as [|g]; [easy|]. destruct r as [|rows]; [easy|].
  intros Hs [Hl Hf] Hh. destruct rows as [|row [|? ?]]; try discriminate.
  apply Forall_inv in Hf.
  exists (Grid (<[0 := row]> g)). cbn [setitem_rows where_bool put_rows].
  destruct Hs as [Hlg Hfg]. destruct (decide (0 < length g)); [|lia].
  split; [reflexivity|]. now apply shape_insert.
Qed.

Lemma at2_insert (g : grid) i0 j0 row c i j :
  g !! i0 = Some row -> j0 < length row ->
  at2 (<[i0 := <[j0 := c]> row]> g) i j =
  if decide (i = i0 /\ j = j0) then Some c else at2 g i j.
Proof.
  intros Hrow Hj. unfold at2.
  destruct (decide (i = i0)) as [->|Hi].
  - rewrite list_lookup_insert_eq by (eapply lookup_lt_Some; eauto).
    rewrite Hrow. destruct (decide (j = j0)) as [->|Hj0].
    + rewrite list_lookup_insert_eq by done.
      destruct (decide _) as [|n]; [done|]. exfalso. apply n. done.
    + rewrite list_lookup_insert_ne by done.
      destruct (decide _) as [[_ ?]|]; done.
  - rewrite list_lookup_insert_ne by done.
    destruct (decide _) as [[? _]|]; done.
Qed.

Lemma put_at_spec h w c ii : forall g,
  shape h w g -> (forall i j, In (i, j) ii -> i < h /\ j < w) ->
  exists g', put_at g ii c = Return g' /\ shape h w g' /\
    forall i j, (In (i, j) ii -> at2 g' i j = Some c) /\
                (~ In (i, j) ii -> at2 g' i j = at2 g i j).
Proof.
  induction ii as [|[i0 j0] ii IH]; intros g Hs Hin.
  - exists g. cbn. split; [reflexivity|]. split; [assumption|].
    intros i j. split; [easy|reflexivity].
  - destruct (Hin i0 j0 (or_introl eq_refl)) as [Hi0 Hj0].
    destruct (shape_lookup h w g i0 Hs Hi0) as [row [Hrow Hlen]].
    cbn [put_at]. rewrite Hrow.
    destruct (decide (j0 < length row)) as [Hj|]; [|lia].
    destruct (IH (<[i0 := <[j0 := c]> row]> g)) as [g' [Hput [Hs' Hat]]].
    { apply shape_insert; [assumption|]. now rewrite length_insert. }
    { intros i j H. apply Hin. now right. }
    exists g'. split; [exact Hput|]. split; [exact Hs'|].
    intros i j. split.
    + intros Hij.
      destruct (decide ((i, j) ∈ ii)) as [Hi|Hn]; rewrite list_elem_of_In in *.
      * now apply Hat.
      * destruct Hij as [[= <- <-]|]; [|contradiction].
        destruct (Hat i0 j0) as [_ H]. rewrite (H Hn).
        rewrite at2_insert by assumption.
        destruct (decide _) as [|n]; [reflexivity|]. exfalso. now apply n.
    + intros Hn. destruct (Hat i j) as [_ H]. rewrite H.
      2: { intros H'. apply Hn. now right. }
      rewrite at2_insert by assumption.
      destruct (decide _) as [[-> ->]|]; [|reflexivity].
      exfalso. apply Hn. now left.
Qed.

Lemma row_where_gt_In c i0 row i j :
  In (i, j) (row_where_gt c i0 row) <->
  i = i0 /\ exists a, row !! j = Some a /\ PrimFloat.ltb c a = true.
Proof.
  unfold row_where_gt. rewrite in_concat. split.
  - intros [l [Hl Hij]].
    apply list_elem_of_In, elem_of_lookup_imap in Hl.
    destruct Hl as [j' [a [-> Ha]]].
    destruct (PrimFloat.ltb c a) eqn:E; [|easy].
    destruct Hij as [[= <- <-]|[]]. eauto.
  - intros [-> [a [Ha E]]].
    exists [(i0, j)]. split; [|now left].
    apply list_elem_of_In, elem_of_lookup_imap.
    exists j, a. rewrite E. done.
Qed.

Lemma where_gt_In g c i j :
  In (i, j) (where_gt (Grid g) c) <->
  exists a, at2 g i j = Some a /\ PrimFloat.ltb c a = true.
Proof.
  cbn [where_gt]. rewrite in_concat. unfold at2. split.
  - intros [l [Hl Hij]].
    apply list_elem_of_In, elem_of_lookup_imap in Hl.
    destruct Hl as [i' [row [-> Hrow]]].
    apply row_where_gt_In in Hij. destruct Hij as [-> Ha].
    now rewrite Hrow.
  - intros [a [Ha E]].
    destruct (g !! i) as [row|] eqn:Hrow; [|discriminate].
    exists (row_where_gt c i row). split.
    + apply list_elem_of_In, elem_of_lookup_imap. eauto.
    + apply row_where_gt_In. eauto.
Qed.

Lemma where_gt_bounds h w g c i j :
  shape h w g -> In (i, j) (where_gt (Grid g) c) -> i < h /\ j < w.
Proof.
  intros Hs [a [Ha _]]%where_gt_In.
  apply (shape_at2 h w g i j Hs). eauto.
Qed.

Lemma setitem_at_shape h w v ii c :
  ndshape h w v -> (forall i j, In (i, j) ii -> i < h /\ j < w) ->
  exists v', setitem_at v ii c = Return v' /\ ndshape h w v'.
Proof.
  destruct v as [|g]; [easy|]. intros Hs Hin.
  destruct (put_at_spec h w c ii g Hs Hin) as [g' [Hput [Hs' _]]].
  exists (Grid g'). cbn. rewrite Hput. done.
Qed.

(** ** The projection of an image *)

Lemma where_gt_nd_bounds h w v c i j :
  ndshape h w v -> In (i, j) (where_gt v c) -> i < h /\ j < w.
Proof. destruct v as [|g]; [easy|]. apply where_gt_bounds. Qed.

(** Line 120 tests the row indices of the pixels beyond the limb, not
    their number: when they all lie in row 0 nothing is clamped.  So it is
    for every image of one row. *)
Lemma any_row_first_row ii :
  (forall i j, In (i, j) ii -> i = 0) -> any_row ii = false.
Proof.
  intros H. unfold any_row.
  destruct (existsb _ ii) eqn:E; [|reflexivity].
  apply existsb_exists in E. destruct E as [[i j] [Hin Hne]].
  rewrite (H i j Hin) in Hne. discriminate Hne.
Qed.

Lemma any_row_single_row w g c :
  shape 1 w g -> any_row (where_gt (Grid g) c) = false.
Proof.
  intros Hs. apply any_row_first_row. intros i j Hin.
  destruct (where_gt_bounds 1 w g c i j Hs Hin). lia.
Qed.

(** On arrays of one shape with at least one row, lines 104-135 run to the
    end and give arrays of that shape. *)
Lemma project_shape lm b0 radius x y h w :
  ndshape h w x -> ndshape h w y -> 0 < h ->
  exists hgln hglt,
    project lm b0 radius x y = Return (hgln, hglt) /\
    ndshape h w hgln /\ ndshape h w hglt.
Proof.
  intros Hx Hy Hh. unfold project, is_not_0.
  set (Robs := (1 / np_tan lm (deg2rad (radius / 60)))%float).
  set (xxat := nd1 (np_tan lm) (nd1 deg2rad (nd2 PrimFloat.div x (Scalar 60%float)))).
  set (yyat := nd1 (np_tan lm) (nd1 deg2rad (nd2 PrimFloat.div y (Scalar 60%float)))).
  assert (Hxx : ndshape h w xxat) by (subst xxat; auto with shapes).
  assert (Hyy : ndshape h w yyat) by (subst yyat; auto with shapes).
  set (rat2 := nd2 PrimFloat.add (power2 lm xxat) (power2 lm yyat)).
  assert (Hrat : ndshape h w rat2) by (subst rat2; auto with shapes).
  destruct (getitem_rows_0 h w xxat Hxx Hh) as [xw [-> Hxw]].
  destruct (getitem_rows_0 h w yyat Hyy Hh) as [yw [-> Hyw]].
  cbn [obind].
  destruct (setitem_rows_0 h w (nd2 PrimFloat.mul (Scalar 0%float) rat2)
              (nd2 (np_arctan2 lm) xw yw)) as [phi [-> Hphi]];
    [auto with shapes..|assumption|].
  cbn [obind].
  set (max_rat2 := (np_tan lm (np_arcsin lm (1 / Robs)) *
                    np_tan lm (np_arcsin lm (1 / Robs)))%float).
  assert (Hclamp : exists rat2',
    (if any_row (where_gt rat2 max_rat2)
     then setitem_at rat2 (where_gt rat2 max_rat2) max_rat2
     else Return rat2) = Return rat2' /\ ndshape h w rat2').
  { destruct (any_row _); [|eauto].
    apply setitem_at_shape; [assumption|].
    intros i j. now apply where_gt_nd_bounds. }
  destruct Hclamp as [rat2' [-> Hrat']]. cbn [obind].
  destruct (getitem_rows_0 h w rat2' Hrat' Hh) as [rw [-> Hrw]]. cbn [obind].
  destruct (setitem_rows_0 h w (nd2 PrimFloat.mul (Scalar 0%float) rat2')
              (nd2 PrimFloat.div (Scalar 1%float)
                 (nd2 PrimFloat.add (Scalar 1%float)
                    (nd2 PrimFloat.div (Scalar 1%float) rw))))
    as [ras2 [-> Hras]]; [auto with shapes..|assumption|].
  cbn [obind].
  eexists _, _. split; [reflexivity|].
  split; auto 10 with shapes.
Qed.

Lemma offset_at_cases len n :
  (exists d, offset_at len n = Return d) \/ offset_at len n = Raise OverflowError.
Proof.
  unfold offset_at. destruct (to_float_cases n) as [[f ->]| ->]; destruct len; eauto.
Qed.

(** the sum of lines 84-85, entry by entry *)
Lemma add_offset_arange n (g : float -> float) a :
  add_offset (fmap (M:=list) g (arange n)) a =
  obind (offset_at n a)
    (fun d => Return (fmap (M:=list) (fun j => g j + d)%float (arange n))).
Proof.
  destruct n as [|n]; unfold offset_at.
  - cbn. destruct (to_float a); reflexivity.
  - unfold arange. cbn [seq]. rewrite !fmap_cons. cbn [add_offset].
    destruct (to_float a) as [d|e]; cbn [obind]; [|reflexivity].
    rewrite <- !fmap_cons. f_equal. now rewrite <- list_fmap_compose.
Qed.

Lemma mesh_run lm xobj yobj xrow yrow s :
  mesh lm xobj yobj xrow yrow s =
  match sqrt_of_objects lm xobj yobj (fst (meshgrid xrow yrow)) (snd (meshgrid xrow yrow)) with
  | Raise e => (set_xg_yg (fst (meshgrid xrow yrow)) (snd (meshgrid xrow yrow)) s, Raise e)
  | Return _ =>
      (set_rg (grid_map PrimFloat.sqrt
                 (grid_zip PrimFloat.add (grid_map square (fst (meshgrid xrow yrow)))
                    (grid_map square (snd (meshgrid xrow yrow)))))
         (set_xg_yg (fst (meshgrid xrow yrow)) (snd (meshgrid xrow yrow)) s),
       Return (Grid (fst (meshgrid xrow yrow)),
               Grid (grid_map PrimFloat.opp (snd (meshgrid xrow yrow)))))
  end.
Proof.
  unfold mesh, bind, setattr, getattr, lift, ret. cbn [xg yg set_xg_yg].
  destruct (sqrt_of_objects _ _ _ _ _); reflexivity.
Qed.

Lemma sqrt_of_objects_cases lm xobj yobj gx gy :
  sqrt_of_objects lm xobj yobj gx gy = Return tt \/
  sqrt_of_objects lm xobj yobj gx gy = Raise OverflowError \/
  sqrt_of_objects lm xobj yobj gx gy = Raise TypeError.
Proof.
  unfold sqrt_of_objects, object_power2.
  destruct (xobj || yobj); [|now left].
  destruct xobj; [destruct (existsb _ gx); [now right; left|]|];
    (destruct yobj; [destruct (existsb _ gy); [now right; left|]|]);
    cbn [obind]; destruct (has_entries gx); auto.
Qed.

Lemma heliographic_Arr lm d rest self :
  heliographic lm (Arr d, rest) self = heliographic_image lm rest self.
Proof.
  destruct rest as [|a1 [|a2 rest]].
  - unfold heliographic_image, offsets, root_fails, unrooted.
    unfold heliographic, bind, getattr, except_IndexError, arg, raise, setattr, lift, ret.
    cbn -[project arange Z2float mesh].
    rewrite mesh_run. cbn [sqrt_of_objects orb object_offsets fst snd].
    unfold meshed, cached, xg_of, yg_of, rg_of, xrow_of, yrow_of.
    cbn -[project arange Z2float].
    destruct (project _ _ _ _ _) as [ll|e]; [|reflexivity].
    destruct (lonh self); reflexivity.
  - unfold heliographic_image, offsets, root_fails, unrooted.
    unfold heliographic, bind, getattr, except_IndexError, arg, raise, setattr, lift, ret.
    cbn -[project arange Z2float mesh add_offset]. rewrite add_offset_arange.
    fold (xdim self).
    destruct (offset_at_cases (xdim self) a1) as [[dx ->]| ->];
      cbn -[project arange Z2float mesh]; [|reflexivity].
    rewrite mesh_run. cbn [sqrt_of_objects orb object_offsets fst snd].
    unfold meshed, cached, xg_of, yg_of, rg_of, xrow_of, yrow_of.
    cbn -[project arange Z2float].
    destruct (project _ _ _ _ _) as [ll|e]; [|reflexivity].
    destruct (lonh self); reflexivity.
  - remember (heliographic_image lm (a1 :: a2 :: rest) self) as R eqn:HR.
    unfold heliographic, bind, getattr, except_IndexError, arg, raise, setattr, lift, ret.
    cbn -[project arange Z2float mesh add_offset]. rewrite !add_offset_arange.
    fold (xdim self) (ydim self).
    unfold heliographic_image, offsets, root_fails, unrooted in HR.
    cbn [object_offsets fst snd] in HR.
    destruct (offset_at_cases (xdim self) a1) as [[dx Hdx]|Hdx]; rewrite Hdx in *;
      cbn [obind] in *; [|now subst R].
    destruct (offset_at_cases (ydim self) a2) as [[dy Hdy]|Hdy]; rewrite Hdy in *;
      cbn [obind] in *; [|now subst R].
    rewrite mesh_run. rewrite <- !list_fmap_compose. unfold compose.
    unfold meshed, cached, xg_of, yg_of, rg_of, xrow_of, yrow_of in HR.
    fold (xdim self) (ydim self) in HR.
    match goal with
    | |- context [sqrt_of_objects ?l ?a ?b ?g1 ?g2] =>
        destruct (sqrt_of_objects_cases l a b g1 g2) as [H|[H|H]]; rewrite H in *
    end; subst R; [|reflexivity..].
    cbn -[project arange Z2float].
    destruct (project _ _ _ _ _) as [ll|e]; [|reflexivity].
    destruct (lonh self); reflexivity.
Qed.

Lemma length_xrow_of self off : length (xrow_of self off) = xdim self.
Proof. unfold xrow_of. now rewrite length_fmap, length_arange. Qed.

Lemma length_yrow_of self off : length (yrow_of self off) = ydim self.
Proof. unfold yrow_of. now rewrite length_fmap, length_arange. Qed.

Lemma shape_xg_of self off : shape (ydim self) (xdim self) (xg_of self off).
Proof.
  rewrite <- (length_xrow_of self off), <- (length_yrow_of self off).
  apply shape_meshgrid.
Qed.

Lemma shape_yg_of self off : shape (ydim self) (xdim self) (yg_of self off).
Proof.
  rewrite <- (length_xrow_of self off), <- (length_yrow_of self off).
  apply shape_meshgrid.
Qed.

Lemma shape_rg_of self off : shape (ydim self) (xdim self) (rg_of self off).
Proof.
  unfold rg_of. auto using shape_xg_of, shape_yg_of with shapes.
Qed.

(** The projection behind a call on an image with at least one row. *)
Lemma project_image lm self off :
  0 < ydim self ->
  exists lon lat,
    project lm (B0 self) (rsun self)
      (Grid (xg_of self off)) (Grid (grid_map PrimFloat.opp (yg_of self off)))
      = Return (Grid lon, Grid lat) /\
    shape (ydim self) (xdim self) lon /\ shape (ydim self) (xdim self) lat.
Proof.
  intros Hh.
  destruct (project_shape lm (B0 self) (rsun self)
              (Grid (xg_of self off)) (Grid (grid_map PrimFloat.opp (yg_of self off)))
              (ydim self) (xdim self)) as [hgln [hglt [E [Hn Ht]]]].
  - apply shape_xg_of.
  - apply shape_grid_map, shape_yg_of.
  - exact Hh.
  - destruct hgln as [|lon]; [easy|]. destruct hglt as [|lat]; [easy|].
    exists lon, lat. done.
Qed.

Lemma lon_lat_returns lm self off :
  0 < ydim self ->
  exists lon lat,
    lon_lat lm self off = Return (Grid lon, Grid lat) /\
    shape (ydim self) (xdim self) lon /\ shape (ydim self) (xdim self) lat.
Proof.
  intros Hh. unfold lon_lat.
  destruct (project_image lm self off Hh) as [lon [lat [-> [Hn Ht]]]].
  cbn. eexists _, _. split; [reflexivity|]. auto with shapes.
Qed.

Lemma heliographic_image_result lm rest self :
  snd (heliographic_image lm rest self) =
  obind (offsets self rest) (fun off =>
  obind (root_fails lm rest self off) (fun _ => lon_lat lm self off)).
Proof.
  unfold heliographic_image, lon_lat.
  destruct (offsets self rest) as [off|e]; [|reflexivity]. cbn [obind].
  destruct (root_fails lm rest self off); [|reflexivity]. cbn [obind].
  destruct (project _ _ _ _ _); reflexivity.
Qed.

(** offsets that are floats leave line 87 to arrays of floats *)
Lemma root_fails_floats lm rest self off :
  float_offsets rest -> root_fails lm rest self off = Return tt.
Proof. unfold float_offsets, root_fails. now intros ->. Qed.

Lemma object_offsets_nil : float_offsets [].
Proof. reflexivity. Qed.

Lemma object_offsets_floats dx dy : float_offsets [PyFloat dx; PyFloat dy].
Proof. reflexivity. Qed.

Lemma offsets_floats self dx dy :
  offsets self [PyFloat dx; PyFloat dy] = Return (Some (dx, dy)).
Proof.
  unfold offsets, offset_at. cbn [to_float].
  destruct (xdim self), (ydim self); reflexivity.
Qed.

(** the call with two float offsets, as [eoa] makes it *)
Lemma heliographic_image_floats lm self dx dy :
  heliographic_image lm [PyFloat dx; PyFloat dy] self =
  match project lm (B0 self) (rsun self) (Grid (xg_of self (Some (dx, dy))))
          (Grid (grid_map PrimFloat.opp (yg_of self (Some (dx, dy))))) with
  | Raise e => (meshed self (Some (dx, dy)), Raise e)
  | Return ll =>
      (cached ll (meshed self (Some (dx, dy))),
       Return (nd1 rad2deg (fst ll), nd1 rad2deg (snd ll)))
  end.
Proof.
  unfold heliographic_image.
  now rewrite offsets_floats, (root_fails_floats lm _ self _ (object_offsets_floats dx dy)).
Qed.

Lemma lon_lat_inputs lm s1 s2 off :
  inputs s1 = inputs s2 -> lon_lat lm s1 off = lon_lat lm s2 off.
Proof.
  unfold inputs. intros [= Him Hb Hl Hx Hy Hr].
  unfold lon_lat, xg_of, yg_of, xrow_of, yrow_of.
  now rewrite Him, Hb, Hx, Hy, Hr.
Qed.

Lemma inputs_meshed self off : inputs (meshed self off) = inputs self.
Proof. reflexivity. Qed.

Lemma inputs_cached ll self : inputs (cached ll self) = inputs self.
Proof. unfold cached. destruct (lonh self); reflexivity. Qed.

Lemma inputs_heliographic lm a self :
  inputs (fst (heliographic lm a self)) = inputs self.
Proof.
  destruct a as [[a0|d] rest].
  - now rewrite heliographic_Num_state.
  - rewrite heliographic_Arr. unfold heliographic_image.
    destruct (offsets self rest) as [off|e]; [|reflexivity].
    destruct (root_fails lm rest self off); [|reflexivity].
    destruct (project _ _ _ _ _); cbn [fst];
      now rewrite ?inputs_cached, inputs_meshed.
Qed.

Lemma lookup_arange n j : j < n -> arange n !! j = Some (Z2float (Z.of_nat j)).
Proof.
  intros Hj. unfold arange. rewrite list_lookup_fmap.
  rewrite (lookup_seq_lt 0 n j Hj). reflexivity.
Qed.

Lemma at2_xg_of self off i j :
  i < ydim self -> j < xdim self ->
  at2 (xg_of self off) i j =
  Some (match off with
        | Some (dx, _) => (Z2float (Z.of_nat j) - X0 self + dx) * fst (scale (im_raw self))
        | None => (Z2float (Z.of_nat j) - X0 self) * fst (scale (im_raw self))
        end)%float.
Proof.
  intros Hi Hj. unfold at2, xg_of, meshgrid. cbn [fst].
  rewrite list_lookup_fmap.
  destruct (lookup_lt_is_Some_2 (yrow_of self off) i) as [y ->].
  { now rewrite length_yrow_of. }
  cbn. unfold xrow_of. rewrite list_lookup_fmap.
  fold (xdim self). rewrite (lookup_arange _ _ Hj). reflexivity.
Qed.

Lemma at2_yg_of self off i j :
  i < ydim self -> j < xdim self ->
  at2 (yg_of self off) i j =
  Some (match off with
        | Some (_, dy) => (Z2float (Z.of_nat i) - Y0 self + dy) * snd (scale (im_raw self))
        | None => (Z2float (Z.of_nat i) - Y0 self) * snd (scale (im_raw self))
        end)%float.
Proof.
  intros Hi Hj. unfold at2, yg_of, meshgrid. cbn [snd].
  rewrite list_lookup_fmap. unfold yrow_of at 1. rewrite list_lookup_fmap.
  fold (ydim self). rewrite (lookup_arange _ _ Hi). cbn.
  rewrite list_lookup_fmap.
  destruct (lookup_lt_is_Some_2 (xrow_of self off) j) as [x ->].
  { now rewrite length_xrow_of. }
  reflexivity.
Qed.

(** ** What a method may change *)

Lemma keeps_refl s : keeps s s.
Proof. split; [reflexivity|]. intros v Hv. done. Qed.

Lemma keeps_trans s1 s2 s3 : keeps s1 s2 -> keeps s2 s3 -> keeps s1 s3.
Proof.
  intros [Hi1 Hc1] [Hi2 Hc2]. split; [congruence|].
  intros v Hv. destruct (Hc1 v Hv) as [Hl1 Ha1].
  destruct (Hc2 v Hl1) as [Hl2 Ha2]. split; congruence.
Qed.

Lemma preserves_bind {A B} (m : M A) (k : A -> M B) :
  preserves m -> (forall a, preserves (k a)) -> preserves (bind m k).
Proof.
  intros Hm Hk s. unfold bind. specialize (Hm s).
  destruct (m s) as [s' [a|e]]; cbn [fst] in *; [|exact Hm].
  eapply keeps_trans; [exact Hm|apply Hk].
Qed.

Lemma preserves_ret {A} (a : A) : preserves (ret a).
Proof. intros s. apply keeps_refl. Qed.

Lemma preserves_raise {A} e : preserves (raise (A:=A) e).
Proof. intros s. apply keeps_refl. Qed.

Lemma preserves_lift {A} (o : outcome A) : preserves (lift o).
Proof. intros s. apply keeps_refl. Qed.

Lemma preserves_getattr {A} (f : CRD -> A) : preserves (getattr f).
Proof. intros s. apply keeps_refl. Qed.

Lemma preserves_arg a k : preserves (arg a k).
Proof. intros s. unfold arg. destruct (snd a !! (k - 1)); apply keeps_refl. Qed.

Lemma preserves_load_global sc name : preserves (load_global sc name).
Proof.
  intros s. unfold load_global.
  destruct (assoc name (module_globals sc)) as [[v|]|]; apply keeps_refl.
Qed.

Lemma preserves_set_area v : preserves (setattr (set_area v)).
Proof. intros s. split; [reflexivity|]. intros w Hw. done. Qed.

Lemma preserves_set_im_corr v : preserves (setattr (set_im_corr v)).
Proof. intros s. split; [reflexivity|]. intros w Hw. done. Qed.

Lemma preserves_set_mgnt_flux v : preserves (setattr (set_mgnt_flux v)).
Proof. intros s. split; [reflexivity|]. intros w Hw. done. Qed.

Lemma preserves_half n : preserves (minus_half n) /\ preserves (plus_half n).
Proof.
  split; intros s; unfold minus_half, plus_half, bind, lift, ret;
    destruct (to_float n); apply keeps_refl.
Qed.

Lemma keeps_meshed s off : keeps s (meshed s off).
Proof. split; [reflexivity|]. intros v Hv. done. Qed.

Lemma keeps_cached ll s : keeps s (cached ll s).
Proof.
  split; [apply inputs_cached|]. intros v Hv. unfold cached. now rewrite Hv.
Qed.

Lemma keeps_unrooted s off : keeps s (unrooted s off).
Proof. split; [reflexivity|]. intros v Hv. done. Qed.

Lemma preserves_heliographic lm a : preserves (heliographic lm a).
Proof.
  intros s. destruct a as [[a0|d] rest].
  - rewrite heliographic_Num_state. apply keeps_refl.
  - rewrite heliographic_Arr. unfold heliographic_image.
    destruct (offsets s rest) as [off|e]; [|apply keeps_refl].
    destruct (root_fails lm rest s off); [|apply keeps_unrooted].
    destruct (project _ _ _ _ _); cbn [fst].
    + eapply keeps_trans; [apply keeps_meshed|apply keeps_cached].
    + apply keeps_meshed.
Qed.

Ltac preserves_step :=
  first
    [ apply preserves_heliographic
    | apply preserves_bind; [|intros ?]
    | apply preserves_ret
    | apply preserves_raise
    | apply preserves_lift
    | apply preserves_getattr
    | apply preserves_arg
    | apply preserves_load_global
    | apply preserves_set_area
    | apply preserves_set_im_corr
    | apply preserves_set_mgnt_flux
    | apply (proj1 (preserves_half _))
    | apply (proj2 (preserves_half _))
    | match goal with
      | |- preserves (match ?x with _ => _ end) => destruct x
      | |- preserves (let (_, _) := ?x in _) => destruct x
      end ].

Lemma preserves_los_corr lm sc a : preserves (los_corr lm sc a).
Proof. unfold los_corr. destruct a as [[a0|d] rest]; cbn [fst]; repeat preserves_step. Qed.

Lemma preserves_eoa lm a : preserves (eoa lm a).
Proof. unfold eoa. destruct a as [[a0|d] rest]; cbn [fst]; repeat preserves_step. Qed.

Lemma preserves_magnetic_flux lm sc a : preserves (magnetic_flux lm sc a).
Proof.
  unfold magnetic_flux, call_area.
  destruct a as [[a0|d] rest]; cbn [fst isinstance_ndarray]; repeat preserves_step.
Qed.

Lemma keeps_run lm sc c s : keeps s (run lm sc c s).
Proof.
  destruct c; cbn [run].
  - apply preserves_heliographic.
  - apply preserves_los_corr.
  - apply preserves_eoa.
  - apply preserves_magnetic_flux.
Qed.

Lemma keeps_run_all lm sc cs : forall s, keeps s (run_all lm sc cs s).
Proof.
  induction cs as [|c cs IH]; intros s; cbn.
  - apply keeps_refl.
  - eapply keeps_trans; [apply keeps_run|apply IH].
Qed.

(** ** Image against pixel, and the cache *)

Lemma heliographic_Arr_no_offsets lm d self :
  snd (heliographic lm (Arr d, []) self) = lon_lat lm self None.
Proof. now rewrite heliographic_Arr, heliographic_image_result. Qed.

Lemma heliographic_Arr_xg lm d self :
  0 < ydim self -> xg (fst (heliographic lm (Arr d, []) self)) = Some (xg_of self None).
Proof.
  intros Hh. rewrite heliographic_Arr. unfold heliographic_image. cbn [offsets].
  rewrite (root_fails_floats lm [] self None object_offsets_nil).
  destruct (project_image lm self None Hh) as [lon [lat [-> _]]].
  unfold cached. cbn [fst]. destruct (lonh (meshed self None)); reflexivity.
Qed.

(** C4. The two modes do not compute the same longitude and latitude for a
    pixel.  On an image with at least one row the call on the image returns
    two grids of the image's shape, while the call on any pixel pair raises;
    and the image call hands the shared transform the offset
    [(col - X0) * scaleX], in arc seconds (line 91), where the pixel call
    hands it [(col - X0) * scaleX / 60] (line 101). *)
Theorem image_and_pixel_projection_differ (lm : libm) (self : CRD) (d : grid) :
  0 < ydim self ->
  (exists lon lat,
     snd (heliographic lm (Arr d, []) self) = Return (Grid lon, Grid lat) /\
     shape (ydim self) (xdim self) lon /\ shape (ydim self) (xdim self) lat) /\
  (forall row col : pynum,
     is_Return (snd (heliographic lm (Num row, [col]) self)) = false) /\
  (exists x, xg (fst (heliographic lm (Arr d, []) self)) = Some x /\
     forall i j, i < ydim self -> j < xdim self ->
       at2 x i j = Some ((Z2float (Z.of_nat j) - X0 self) * fst (scale (im_raw self)))%float).
Proof.
  intros Hh. split; [|split].
  - rewrite heliographic_Arr_no_offsets. now apply lon_lat_returns.
  - intros row col. apply heliographic_Num_raises.
  - exists (xg_of self None). split; [now apply heliographic_Arr_xg|].
    intros i j Hi Hj. now rewrite at2_xg_of.
Qed.

(** C9. A call on the image writes the cached grids [lonh] and [lath] only
    when [lonh] is not there yet, and then with the grids it returns; once
    [lonh] is there no sequence of method calls changes the two; and a later
    call on the image without offsets returns what the first one returned,
    which on a fresh object is what the cache holds. *)
Theorem heliographic_cache_first_call_wins (lm : libm) (sc : sun_constants)
    (self : CRD) (d d' : grid) (rest : list pynum) (cs : list call) :
  let first := heliographic lm (Arr d, []) self in
  let later := run_all lm sc cs (fst first) in
  (forall v, lonh self = Some v ->
     lonh (fst (heliographic lm (Arr d, rest) self)) = Some v /\
     lath (fst (heliographic lm (Arr d, rest) self)) = lath self) /\
  (forall lon lat, lonh self = None -> snd first = Return (lon, lat) ->
     lonh (fst first) = Some lon /\ lath (fst first) = Some lat) /\
  (forall v, lonh (fst first) = Some v ->
     lonh later = Some v /\ lath later = lath (fst first)) /\
  snd (heliographic lm (Arr d', []) later) = snd first /\
  (forall lon lat, lonh self = None -> snd first = Return (lon, lat) ->
     lonh later = Some lon /\ lath later = Some lat /\
     snd (heliographic lm (Arr d', []) later) = Return (lon, lat)).
Proof.
  cbn zeta.
  assert (Hwrite : forall lon lat, lonh self = None ->
            snd (heliographic lm (Arr d, []) self) = Return (lon, lat) ->
            lonh (fst (heliographic lm (Arr d, []) self)) = Some lon /\
            lath (fst (heliographic lm (Arr d, []) self)) = Some lat).
  { intros lon lat Hnone. rewrite heliographic_Arr.
    unfold heliographic_image. cbn [offsets].
    destruct (project _ _ _ _ _) as [ll|e]; cbn [fst snd]; [|discriminate].
    intros [= <- <-]. unfold cached. cbn. rewrite Hnone. done. }
  assert (Hkeep : forall v, lonh (fst (heliographic lm (Arr d, []) self)) = Some v ->
            lonh (run_all lm sc cs (fst (heliographic lm (Arr d, []) self))) = Some v /\
            lath (run_all lm sc cs (fst (heliographic lm (Arr d, []) self)))
              = lath (fst (heliographic lm (Arr d, []) self))).
  { intros v Hv. now apply (keeps_run_all lm sc cs). }
  assert (Hsame : snd (heliographic lm (Arr d', [])
                         (run_all lm sc cs (fst (heliographic lm (Arr d, []) self))))
                  = snd (heliographic lm (Arr d, []) self)).
  { rewrite !heliographic_Arr_no_offsets. apply lon_lat_inputs.
    etransitivity; [apply (keeps_run_all lm sc cs)|].
    apply inputs_heliographic. }
  split; [|split; [exact Hwrite|split; [exact Hkeep|split; [exact Hsame|]]]].
  - intros v Hv. now apply (preserves_heliographic lm (Arr d, rest) self).
  - intros lon lat Hnone Hfirst.
    destruct (Hwrite lon lat Hnone Hfirst) as [Hlon Hlat].
    destruct (Hkeep _ Hlon) as [Hlon' Hlat'].
    split; [exact Hlon'|]. split; [congruence|]. congruence.
Qed.

(** ** Elements of arrays *)

Lemma at2_grid_map f g i j : at2 (grid_map f g) i j = f <$> at2 g i j.
Proof.
  unfold at2, grid_map. rewrite list_lookup_fmap.
  destruct (g !! i) as [row|]; cbn; [|reflexivity].
  apply list_lookup_fmap.
Qed.

Lemma at2_grid_zip f g h i j :
  at2 (grid_zip f g h) i j = lift2 f (at2 g i j) (at2 h i j).
Proof.
  unfold at2, grid_zip. rewrite lookup_zip_with.
  destruct (g !! i) as [r1|]; cbn; [|reflexivity].
  destruct (h !! i) as [r2|]; cbn.
  - rewrite lookup_zip_with.
    destruct (r1 !! j), (r2 !! j); reflexivity.
  - destruct (r1 !! j); reflexivity.
Qed.

Lemma nd_at_nd1 f v i j : nd_at (nd1 f v) i j = f <$> nd_at v i j.
Proof. destruct v; cbn; [reflexivity|apply at2_grid_map]. Qed.

Lemma nd_at_nd2 f v w i j :
  nd_at (nd2 f v w) i j = lift2 f (nd_at v i j) (nd_at w i j).
Proof.
  destruct v as [a|g], w as [b|h]; cbn [nd2 nd_at].
  - reflexivity.
  - rewrite at2_grid_map. destruct (at2 h i j); reflexivity.
  - rewrite at2_grid_map. destruct (at2 g i j); reflexivity.
  - apply at2_grid_zip.
Qed.

Lemma at2_rg_of self off i j :
  i < ydim self -> j < xdim self ->
  at2 (rg_of self off) i j =
  Some (PrimFloat.sqrt
          (square (match off with
                   | Some (dx, _) =>
                       (Z2float (Z.of_nat j) - X0 self + dx) * fst (scale (im_raw self))
                   | None => (Z2float (Z.of_nat j) - X0 self) * fst (scale (im_raw self))
                   end) +
           square (match off with
                   | Some (_, dy) =>
                       (Z2float (Z.of_nat i) - Y0 self + dy) * snd (scale (im_raw self))
                   | None => (Z2float (Z.of_nat i) - Y0 self) * snd (scale (im_raw self))
                   end)))%float.
Proof.
  intros Hi Hj. unfold rg_of.
  rewrite at2_grid_map, at2_grid_zip, !at2_grid_map.
  rewrite at2_xg_of, at2_yg_of by assumption. reflexivity.
Qed.

(** ** The area of the pixels of an image *)

Lemma area_value_at lm UL LL LR UR i j c1 c2 c3 c4 :
  ll_at UL i j = Some c1 -> ll_at LL i j = Some c2 ->
  ll_at LR i j = Some c3 -> ll_at UR i j = Some c4 ->
  nd_at (area_value lm UL LL LR UR) i j = Some (pixel_area lm c1 c2 c3 c4).
Proof.
  unfold ll_at. intros H1 H2 H3 H4.
  destruct (nd_at (fst UL) i j) as [lon1|] eqn:E1; [|discriminate].
  destruct (nd_at (snd UL) i j) as [lat1|] eqn:F1; [|discriminate].
  destruct (nd_at (fst LL) i j) as [lon2|] eqn:E2; [|discriminate].
  destruct (nd_at (snd LL) i j) as [lat2|] eqn:F2; [|discriminate].
  destruct (nd_at (fst LR) i j) as [lon3|] eqn:E3; [|discriminate].
  destruct (nd_at (snd LR) i j) as [lat3|] eqn:F3; [|discriminate].
  destruct (nd_at (fst UR) i j) as [lon4|] eqn:E4; [|discriminate].
  destruct (nd_at (snd UR) i j) as [lat4|] eqn:F4; [|discriminate].
  injection H1 as <-. injection H2 as <-. injection H3 as <-. injection H4 as <-.
  unfold area_value, solid_angle, dot, cross, corner_vector.
  repeat (rewrite ?nd_at_nd1, ?nd_at_nd2).
  rewrite E1, F1, E2, F2, E3, F3, E4, F4.
  reflexivity.
Qed.

Lemma area_value_shape lm UL LL LR UR h w :
  ndshape h w (fst UL) -> ndshape h w (snd UL) ->
  ndshape h w (fst LL) -> ndshape h w (snd LL) ->
  ndshape h w (fst LR) -> ndshape h w (snd LR) ->
  ndshape h w (fst UR) -> ndshape h w (snd UR) ->
  ndshape h w (area_value lm UL LL LR UR).
Proof.
  intros. unfold area_value, solid_angle, dot, cross, corner_vector.
  auto 30 with shapes.
Qed.

Lemma ydim_inputs s1 s2 : inputs s1 = inputs s2 -> ydim s1 = ydim s2.
Proof. unfold inputs, ydim. now intros [= -> _ _ _ _ _]. Qed.

Lemma rg_of_inputs s1 s2 off : inputs s1 = inputs s2 -> rg_of s1 off = rg_of s2 off.
Proof.
  unfold inputs. intros [= Him Hb Hl Hx Hy Hr].
  unfold rg_of, xg_of, yg_of, xrow_of, yrow_of. now rewrite Him, Hx, Hy.
Qed.

Lemma heliographic_corner lm d dx dy s :
  0 < ydim s ->
  exists lon lat s',
    lon_lat lm s (Some (dx, dy)) = Return (Grid lon, Grid lat) /\
    shape (ydim s) (xdim s) lon /\ shape (ydim s) (xdim s) lat /\
    heliographic lm (Arr d, [PyFloat dx; PyFloat dy]) s
      = (s', Return (Grid lon, Grid lat)) /\
    inputs s' = inputs s /\
    rg s' = Some (rg_of s (Some (dx, dy))).
Proof.
  intros Hh.
  destruct (lon_lat_returns lm s (Some (dx, dy)) Hh) as [lon [lat [E [Hn Ht]]]].
  exists lon, lat. rewrite heliographic_Arr, heliographic_image_floats.
  pose proof E as E'. unfold lon_lat in E'.
  destruct (project _ _ _ _ _) as [ll|e]; [|discriminate].
  cbn [obind] in E'. injection E' as E1 E2. rewrite E1, E2.
  eexists. split; [exact E|]. split; [exact Hn|]. split; [exact Ht|].
  split; [reflexivity|]. split.
  - now rewrite inputs_cached, inputs_meshed.
  - unfold cached. destruct (lonh (meshed s (Some (dx, dy)))); reflexivity.
Qed.

Lemma eoa_image lm d rest self :
  0 < ydim self ->
  exists lon1 lat1 lon2 lat2 lon3 lat3 lon4 lat4 v a s',
    lon_lat lm self off_UL = Return (Grid lon1, Grid lat1) /\
    lon_lat lm self off_LL = Return (Grid lon2, Grid lat2) /\
    lon_lat lm self off_LR = Return (Grid lon3, Grid lat3) /\
    lon_lat lm self off_UR = Return (Grid lon4, Grid lat4) /\
    Forall (shape (ydim self) (xdim self))
      [lon1; lat1; lon2; lat2; lon3; lat3; lon4; lat4; v; a] /\
    area_value lm (Grid lon1, Grid lat1) (Grid lon2, Grid lat2)
      (Grid lon3, Grid lat3) (Grid lon4, Grid lat4) = Grid v /\
    eoa lm (Arr d, rest) self = (s', Return (Grid a)) /\
    rg s' = Some (rg_of self off_UR) /\
    area s' = Some (Grid a) /\
    forall i j,
      (In (i, j) (where_gt (Grid (rg_of self off_UR)) (rsun self)) ->
         at2 a i j = Some nan) /\
      (~ In (i, j) (where_gt (Grid (rg_of self off_UR)) (rsun self)) ->
         at2 a i j = at2 v i j).
Proof.
  intros Hh.
  destruct (heliographic_corner lm d (-0.5) (-0.5) self Hh)
    as (lon1 & lat1 & s1 & E1 & Hn1 & Ht1 & C1 & I1 & _).
  assert (Hh1 : 0 < ydim s1) by now rewrite (ydim_inputs _ _ I1).
  destruct (heliographic_corner lm d 0.5 (-0.5) s1 Hh1)
    as (lon2 & lat2 & s2 & E2 & Hn2 & Ht2 & C2 & I2 & _).
  assert (J2 : inputs s2 = inputs self) by congruence.
  assert (Hh2 : 0 < ydim s2) by now rewrite (ydim_inputs _ _ J2).
  destruct (heliographic_corner lm d 0.5 0.5 s2 Hh2)
    as (lon3 & lat3 & s3 & E3 & Hn3 & Ht3 & C3 & I3 & _).
  assert (J3 : inputs s3 = inputs self) by congruence.
  assert (Hh3 : 0 < ydim s3) by now rewrite (ydim_inputs _ _ J3).
  destruct (heliographic_corner lm d (-0.5) 0.5 s3 Hh3)
    as (lon4 & lat4 & s4 & E4 & Hn4 & Ht4 & C4 & I4 & R4).
  assert (J4 : inputs s4 = inputs self) by congruence.
  rewrite (lon_lat_inputs lm s1 self _ I1) in E2.
  rewrite (lon_lat_inputs lm s2 self _ J2) in E3.
  rewrite (lon_lat_inputs lm s3 self _ J3) in E4.
  rewrite (rg_of_inputs s3 self _ J3) in R4.
  assert (X1 : xdim s1 = xdim self /\ ydim s1 = ydim self).
  { unfold inputs in I1. injection I1 as Him _ _ _ _ _. unfold xdim, ydim. now rewrite Him. }
  assert (X2 : xdim s2 = xdim self /\ ydim s2 = ydim self).
  { unfold inputs in J2. injection J2 as Him _ _ _ _ _. unfold xdim, ydim. now rewrite Him. }
  assert (X3 : xdim s3 = xdim self /\ ydim s3 = ydim self).
  { unfold inputs in J3. injection J3 as Him _ _ _ _ _. unfold xdim, ydim. now rewrite Him. }
  destruct X1 as [X1 Y1], X2 as [X2 Y2], X3 as [X3 Y3].
  rewrite X1, Y1 in Hn2, Ht2. rewrite X2, Y2 in Hn3, Ht3. rewrite X3, Y3 in Hn4, Ht4.
  pose proof (area_value_shape lm (Grid lon1, Grid lat1) (Grid lon2, Grid lat2)
                (Grid lon3, Grid lat3) (Grid lon4, Grid lat4) (ydim self) (xdim self)
                Hn1 Ht1 Hn2 Ht2 Hn3 Ht3 Hn4 Ht4) as Hv.
  destruct (area_value lm _ _ _ _) as [|v] eqn:Ev; [easy|]. cbn [ndshape] in Hv.
  destruct (put_at_spec (ydim self) (xdim self) nan
              (where_gt (Grid (rg_of self off_UR)) (rsun self)) v Hv)
    as [a [Hput [Ha Hat]]].
  { intros i j. apply where_gt_bounds, shape_rg_of. }
  exists lon1, lat1, lon2, lat2, lon3, lat3, lon4, lat4, v, a.
  eexists. split; [exact E1|]. split; [exact E2|]. split; [exact E3|].
  split; [exact E4|].
  split; [repeat (apply List.Forall_cons; [assumption|]); apply List.Forall_nil|].
  split; [exact Ev|].
  assert (Hrsun : rsun s4 = rsun self).
  { unfold inputs in J4. now injection J4. }
  split; [|split; [|split; [|exact Hat]]].
  - unfold eoa. cbn [fst].
    erewrite bind_Return; cycle 1.
    { erewrite bind_Return by exact C1.
      erewrite bind_Return by exact C2.
      erewrite bind_Return by exact C3.
      erewrite bind_Return by exact C4.
      reflexivity. }
    cbv beta iota zeta.
    fold (area_value lm (Grid lon1, Grid lat1) (Grid lon2, Grid lat2)
            (Grid lon3, Grid lat3) (Grid lon4, Grid lat4)).
    rewrite Ev.
    unfold bind, setattr, getattr, lift, ret. cbn [rg set_area rsun].
    rewrite R4, Hrsun. cbn [setitem_at]. unfold off_UR in Hput.
    rewrite Hput. cbn [obind].
    reflexivity.
  - cbn [rg set_area]. exact R4.
  - reflexivity.
Qed.

Lemma corner_lon_lat lm self d dx dy i j :
  corner lm self d dx dy i j =
  match lon_lat lm self (Some (dx, dy)) with
  | Return ll => ll_at ll i j
  | Raise _ => None
  end.
Proof.
  unfold corner.
  rewrite heliographic_Arr, heliographic_image_result, offsets_floats.
  cbn [obind]. now rewrite (root_fails_floats lm _ self _ (object_offsets_floats dx dy)).
Qed.

Lemma ll_at_grids h w lon lat i j :
  shape h w lon -> shape h w lat -> i < h -> j < w ->
  exists c, ll_at (Grid lon, Grid lat) i j = Some c.
Proof.
  intros Hn Ht Hi Hj. unfold ll_at. cbn [fst snd nd_at].
  destruct (proj2 (shape_at2 h w lon i j Hn) (conj Hi Hj)) as [x ->].
  destruct (proj2 (shape_at2 h w lat i j Ht) (conj Hi Hj)) as [y ->].
  eauto.
Qed.

Lemma masked_iff self i j :
  i < ydim self -> j < xdim self ->
  (In (i, j) (where_gt (Grid (rg_of self off_UR)) (rsun self)) <->
   PrimFloat.ltb (rsun self) (corner_distance self i j) = true).
Proof.
  intros Hi Hj. rewrite where_gt_In.
  rewrite (at2_rg_of self off_UR i j Hi Hj). cbn match. fold (corner_distance self i j).
  split.
  - now intros [a [[= <-] H]].
  - eauto.
Qed.

(** On an image with at least one row [eoa] returns an array; the entry of
    a pixel is not-a-number when the distance line 231 compares exceeds the
    radius, and otherwise the value of line 230 for the pixel's corners. *)
Lemma eoa_image_at lm self d rest i j :
  0 < ydim self -> i < ydim self -> j < xdim self ->
  exists a s' c1 c2 c3 c4,
    eoa lm (Arr d, rest) self = (s', Return (Grid a)) /\
    rg s' = Some (rg_of self off_UR) /\
    corner lm self d (-0.5) (-0.5) i j = Some c1 /\
    corner lm self d 0.5 (-0.5) i j = Some c2 /\
    corner lm self d 0.5 0.5 i j = Some c3 /\
    corner lm self d (-0.5) 0.5 i j = Some c4 /\
    at2 a i j =
      Some (if PrimFloat.ltb (rsun self) (corner_distance self i j) then nan
            else pixel_area lm c1 c2 c3 c4).
Proof.
  intros Hh Hi Hj.
  destruct (eoa_image lm d rest self Hh)
    as (lon1 & lat1 & lon2 & lat2 & lon3 & lat3 & lon4 & lat4 & v & a & s' &
        E1 & E2 & E3 & E4 & Hshapes & Ev & He & Hr & _ & Hat).
  repeat match goal with
         | H : Forall _ (_ :: _) |- _ =>
             let Hs := fresh "Hs" in apply Forall_cons_1 in H as [Hs H]
         end.
  destruct (ll_at_grids _ _ lon1 lat1 i j Hs Hs0 Hi Hj) as [c1 L1].
  destruct (ll_at_grids _ _ lon2 lat2 i j Hs1 Hs2 Hi Hj) as [c2 L2].
  destruct (ll_at_grids _ _ lon3 lat3 i j Hs3 Hs4 Hi Hj) as [c3 L3].
  destruct (ll_at_grids _ _ lon4 lat4 i j Hs5 Hs6 Hi Hj) as [c4 L4].
  exists a, s', c1, c2, c3, c4.
  split; [exact He|]. split; [exact Hr|].
  rewrite !corner_lon_lat.
  unfold off_UL, off_LL, off_LR, off_UR in E1, E2, E3, E4.
  rewrite E1, E2, E3, E4.
  split; [exact L1|]. split; [exact L2|]. split; [exact L3|]. split; [exact L4|].
  destruct (PrimFloat.ltb (rsun self) (corner_distance self i j)) eqn:Hgt.
  - apply Hat. now apply masked_iff.
  - destruct (Hat i j) as [_ H]. rewrite H.
    + pose proof (area_value_at lm _ _ _ _ i j c1 c2 c3 c4 L1 L2 L3 L4) as Hv.
      rewrite Ev in Hv. exact Hv.
    + intros Hin. apply masked_iff in Hin; [|assumption..]. congruence.
Qed.

(** X11. The mask of lines 231-232 follows the grid [rg] that the last
    corner projection leaves on the object: a pixel gets not-a-number
    whenever [corner_distance], the distance of its corner at [(-0.5, +0.5)],
    exceeds the radius. *)
Lemma area_nan_beyond_corner_distance (lm : libm) (self : CRD) (d : grid)
    (rest : list pynum) (i j : nat) :
  0 < ydim self -> i < ydim self -> j < xdim self ->
  PrimFloat.ltb (rsun self) (corner_distance self i j) = true ->
  exists a r s',
    eoa lm (Arr d, rest) self = (s', Return (Grid a)) /\
    rg s' = Some r /\ at2 r i j = Some (corner_distance self i j) /\
    at2 a i j = Some nan.
Proof.
  intros Hh Hi Hj Hgt.
  destruct (eoa_image_at lm self d rest i j Hh Hi Hj)
    as (a & s' & c1 & c2 & c3 & c4 & He & Hr & _ & _ & _ & _ & Hat).
  exists a, (rg_of self off_UR), s'.
  split; [exact He|]. split; [exact Hr|]. split.
  - now rewrite (at2_rg_of self off_UR i j Hi Hj).
  - now rewrite Hgt in Hat.
Qed.

(** ** The small image *)

Lemma init_small_map : __init__ small_map = Return small_crd.
Proof. reflexivity. Qed.

(** On the image the corrector stops at line 160, after the projection has
    stored its grids. *)
Lemma los_corr_small_image :
  snd (los_corr libm_ref sunpy_constants (Arr (data small_map), []) small_crd)
    = Raise (NameError "B0") /\
  is_Some (lonh (fst (los_corr libm_ref sunpy_constants
                        (Arr (data small_map), []) small_crd))).
Proof. split; vm_compute; eauto. Qed.

Lemma magnetic_flux_small_image :
  snd (magnetic_flux libm_ref sunpy_constants (Arr (data small_map), []) small_crd)
    = Raise (AttributeError "area") /\
  snd (magnetic_flux libm_ref sunpy_constants (Arr (data small_map), [])
         (fst (eoa libm_ref (Arr (data small_map), []) small_crd)))
    = Raise TypeError.
Proof. split; vm_compute; reflexivity. Qed.

Lemma init_required_fields_small :
  ((forall f, is_Some (first_found (meta small_map) f)) /\ radius_available small_map) /\
  exists self, __init__ small_map = Return self /\
    forall f, first_found (meta small_map) f = Some (attribute f self).
Proof.
  assert (H : (forall f, is_Some (first_found (meta small_map) f)) /\
              radius_available small_map).
  { split; [intros []; vm_compute; eauto|]. intros H. discriminate H. }
  split; [exact H|].
  exact (proj2 (proj2 (init_required_fields small_map)) (proj1 H) (proj2 H)).
Defined.

Lemma image_and_pixel_projection_differ_small :
  0 < ydim small_crd /\
  (exists lon lat,
     snd (heliographic libm_ref (Arr (data small_map), []) small_crd)
       = Return (Grid lon, Grid lat) /\
     shape (ydim small_crd) (xdim small_crd) lon /\
     shape (ydim small_crd) (xdim small_crd) lat) /\
  (forall row col : pynum,
     is_Return (snd (heliographic libm_ref (Num row, [col]) small_crd)) = false) /\
  (exists x, xg (fst (heliographic libm_ref (Arr (data small_map), []) small_crd)) = Some x /\
     forall i j, i < ydim small_crd -> j < xdim small_crd ->
       at2 x i j = Some ((Z2float (Z.of_nat j) - X0 small_crd)
                         * fst (scale (im_raw small_crd)))%float).
Proof.
  assert (H : 0 < ydim small_crd) by (vm_compute; lia).
  split; [exact H|].
  exact (image_and_pixel_projection_differ libm_ref small_crd (data small_map) H).
Defined.

(** Pixel (row 1, column 0): its corner at (-0.5, +0.5) lies at distance 2
    from the disk centre, beyond the radius 1.25. *)
Lemma area_nan_beyond_corner_distance_small :
  PrimFloat.ltb (rsun small_crd) (corner_distance small_crd 1 0) = true /\
  exists a r s',
    eoa libm_ref (Arr (data small_map), []) small_crd = (s', Return (Grid a)) /\
    rg s' = Some r /\ at2 r 1 0 = Some (corner_distance small_crd 1 0) /\
    at2 a 1 0 = Some nan.
Proof.
  split; [vm_compute; reflexivity|].
  apply (area_nan_beyond_corner_distance libm_ref small_crd (data small_map) [] 1 0).
  - vm_compute. lia.
  - vm_compute. lia.
  - vm_compute. lia.
  - vm_compute. reflexivity.
Defined.

(** C6. Pixels beyond the apparent radius are to get not-a-number in the
    area grid.  Pixel (row 1, column 3) of the small image lies at distance
    1.58 from the disk centre, beyond the radius 1.25, and yet it keeps the
    value of line 230, with every libm: the mask of line 231 reads the grid
    [rg] of the last corner projection, in which the pixel has the distance
    1 of its corner at (-0.5, +0.5).  With the reference libm that value is
    a number. *)
Theorem area_off_disk_pixel_is_a_number (lm : libm) :
  PrimFloat.ltb (rsun small_crd) (radial_distance small_crd 1 3) = true /\
  (exists a c1 c2 c3 c4,
     snd (eoa lm (Arr (data small_map), []) small_crd) = Return (Grid a) /\
     corner lm small_crd (data small_map) (-0.5) (-0.5) 1 3 = Some c1 /\
     corner lm small_crd (data small_map) 0.5 (-0.5) 1 3 = Some c2 /\
     corner lm small_crd (data small_map) 0.5 0.5 1 3 = Some c3 /\
     corner lm small_crd (data small_map) (-0.5) 0.5 1 3 = Some c4 /\
     at2 a 1 3 = Some (pixel_area lm c1 c2 c3 c4)) /\
  (exists a v,
     snd (eoa libm_ref (Arr (data small_map), []) small_crd) = Return (Grid a) /\
     at2 a 1 3 = Some v /\ PrimFloat.is_nan v = false).
Proof.
  split; [vm_compute; reflexivity|]. split.
  - destruct (eoa_image_at lm small_crd (data small_map) [] 1 3)
      as (a & s' & c1 & c2 & c3 & c4 & He & _ & K1 & K2 & K3 & K4 & Hat);
      [vm_compute; lia..|].
    exists a, c1, c2, c3, c4. rewrite He. auto 10.
  - eexists _, _. split; [vm_compute; reflexivity|].
    split; vm_compute; reflexivity.
Qed.

(** C7. The area of a pixel is to be the squared solar radius times the
    solid angle of its four corners.  On valid pixels it is not.  Pixel
    (row 2, column 1) of the small image lies on the disk, at distance 0.71
    from the centre with the radius 1.25; its four corners project, and with
    the reference libm the squared radius times their solid angle is a
    number; and yet the call on the image returns not-a-number for it, with
    every libm: the mask of line 231 reads the grid [rg] of the last corner
    projection, in which the pixel has the distance 1.41 of its corner at
    (-0.5, +0.5).  And on a pixel pair the operation returns no area at all:
    every such call raises inside the projection. *)
Theorem area_on_disk_pixel_is_lost (lm : libm) :
  PrimFloat.leb (radial_distance small_crd 2 1) (rsun small_crd) = true /\
  (exists a,
     snd (eoa lm (Arr (data small_map), []) small_crd) = Return (Grid a) /\
     at2 a 2 1 = Some nan) /\
  (exists c1 c2 c3 c4,
     corner libm_ref small_crd (data small_map) (-0.5) (-0.5) 2 1 = Some c1 /\
     corner libm_ref small_crd (data small_map) 0.5 (-0.5) 2 1 = Some c2 /\
     corner libm_ref small_crd (data small_map) 0.5 0.5 2 1 = Some c3 /\
     corner libm_ref small_crd (data small_map) (-0.5) 0.5 2 1 = Some c4 /\
     PrimFloat.is_nan
       (square r_cm * quad_solid_angle libm_ref (vector libm_ref c1) (vector libm_ref c2)
                        (vector libm_ref c3) (vector libm_ref c4))%float = false) /\
  (forall (a0 : pynum) (rest : list pynum) (self : CRD),
     is_Return (snd (eoa lm (Num a0, rest) self)) = false).
Proof.
  split; [vm_compute; reflexivity|]. split; [|split].
  - destruct (eoa_image_at lm small_crd (data small_map) [] 2 1)
      as (a & s' & c1 & c2 & c3 & c4 & He & _ & _ & _ & _ & _ & Hat);
      [vm_compute; lia..|].
    exists a. rewrite He. split; [reflexivity|].
    rewrite Hat. reflexivity.
  - eexists _, _, _, _. repeat (split; [vm_compute; reflexivity|]).
    vm_compute. reflexivity.
  - intros a0 rest self.
    destruct (eoa_Num lm a0 rest self) as [-> | ->]; reflexivity.
Qed.

(** ** The projection of an image, pixel by pixel *)

Lemma getitem_rows_0_at h w U :
  shape h w U -> 0 < h ->
  exists R, getitem_rows (Grid U) (where_bool true) = Return (Grid R) /\
    shape 1 w R /\ forall j, at2 R 0 j = at2 U 0 j.
Proof.
  intros Hs Hh.
  destruct (shape_lookup h w U 0 Hs Hh) as [row [Hrow Hlen]].
  exists [row]. cbn. rewrite Hrow. cbn. split; [reflexivity|]. split.
  - split; [reflexivity|]. now constructor.
  - intros j. unfold at2. rewrite Hrow. reflexivity.
Qed.

Lemma setitem_rows_0_at h w T R :
  shape h w T -> shape 1 w R -> 0 < h ->
  exists T', setitem_rows (Grid T) (where_bool true) (Grid R) = Return (Grid T') /\
    shape h w T' /\
    forall i j, at2 T' i j = if Nat.eqb i 0 then at2 R 0 j else at2 T i j.
Proof.
  intros Hs [Hl Hf] Hh. destruct R as [|row [|? ?]]; try discriminate.
  apply Forall_inv in Hf.
  exists (<[0 := row]> T). cbn [setitem_rows where_bool put_rows].
  destruct Hs as [HlT HfT]. destruct (decide (0 < length T)); [|lia].
  split; [reflexivity|]. split.
  - apply shape_insert; [now split|assumption].
  - intros i j. unfold at2. destruct i as [|i]; cbn [Nat.eqb].
    + rewrite list_lookup_insert_eq by lia. reflexivity.
    + rewrite list_lookup_insert_ne by lia. reflexivity.
Qed.

Lemma clamp_at h w g c :
  shape h w g ->
  exists g',
    (if any_row (where_gt (Grid g) c) then setitem_at (Grid g) (where_gt (Grid g) c) c
     else Return (Grid g)) = Return (Grid g') /\
    shape h w g' /\
    forall i j a, at2 g i j = Some a ->
      at2 g' i j = Some (if any_row (where_gt (Grid g) c) && PrimFloat.ltb c a then c else a).
Proof.
  intros Hs. destruct (any_row (where_gt (Grid g) c)) eqn:E.
  - destruct (put_at_spec h w c (where_gt (Grid g) c) g Hs) as [g' [Hput [Hs' Hat]]].
    { intros i j. now apply where_gt_bounds. }
    exists g'. cbn [setitem_at]. rewrite Hput. split; [reflexivity|].
    split; [assumption|]. intros i j a Ha. cbn [andb].
    destruct (PrimFloat.ltb c a) eqn:Hlt.
    + apply Hat. apply where_gt_In. eauto.
    + destruct (Hat i j) as [_ H]. rewrite H; [assumption|].
      intros [a' [Ha' Hlt']]%where_gt_In. congruence.
  - exists g. split; [reflexivity|]. split; [assumption|].
    intros i j a Ha. exact Ha.
Qed.

Lemma fmap_Some_at (f : float -> float) (o : option float) a :
  o = Some a -> f <$> o = Some (f a).
Proof. now intros ->. Qed.

(** Lines 104-135 on the arrays of an image: the result, pixel by pixel. *)
Lemma project_at lm b0 radius (x y : grid) h w :
  shape h w x -> shape h w y -> 0 < h ->
  exists hgln hglt,
    project lm b0 radius (Grid x) (Grid y) = Return (Grid hgln, Grid hglt) /\
    forall i j xi yi, at2 x i j = Some xi -> at2 y i j = Some yi ->
      at2 hgln i j =
        Some (fst (pixel_project lm radius (Nat.eqb i 0) (clamps lm radius x y) xi yi)) /\
      at2 hglt i j =
        Some (snd (pixel_project lm radius (Nat.eqb i 0) (clamps lm radius x y) xi yi)).
Proof.
  intros Hx Hy Hh. unfold project, is_not_0. cbn [nd1 nd2 power2].
  set (X := grid_map (np_tan lm) (grid_map deg2rad (grid_map (fun v => v / 60)%float x))).
  set (Y := grid_map (np_tan lm) (grid_map deg2rad (grid_map (fun v => v / 60)%float y))).
  assert (HX : shape h w X) by (subst X; auto with shapes).
  assert (HY : shape h w Y) by (subst Y; auto with shapes).
  set (rat2 := grid_zip PrimFloat.add (grid_map square X) (grid_map square Y)).
  assert (Hrat : shape h w rat2) by (subst rat2; auto with shapes).
  destruct (getitem_rows_0_at h w X HX Hh) as [Xw [-> [HXw AXw]]].
  destruct (getitem_rows_0_at h w Y HY Hh) as [Yw [-> [HYw AYw]]].
  cbn [obind nd2].
  destruct (setitem_rows_0_at h w (grid_map (PrimFloat.mul 0) rat2)
              (grid_zip (np_arctan2 lm) Xw Yw)) as [phi [-> [Hphi Aphi]]];
    [auto with shapes..|assumption|].
  cbn [obind].
  fold (Robs_of lm radius). fold (max_rat2_of lm radius).
  destruct (clamp_at h w rat2 (max_rat2_of lm radius) Hrat) as [rat2' [E [Hrat' Arat']]].
  cbn [where_gt setitem_at] in E |- *. rewrite E. clear E. cbn [obind nd2].
  destruct (getitem_rows_0_at h w rat2' Hrat' Hh) as [Rw [-> [HRw ARw]]].
  cbn [obind nd2].
  destruct (setitem_rows_0_at h w (grid_map (PrimFloat.mul 0) rat2')
              (grid_map (PrimFloat.div 1)
                 (grid_map (PrimFloat.add 1) (grid_map (PrimFloat.div 1) Rw))))
    as [ras2 [-> [Hras Aras]]]; [auto with shapes..|assumption|].
  cbn [obind nd1 nd2].
  eexists _, _. split; [reflexivity|].
  intros i j xi yi Hxi Hyi.
  assert (EX : at2 X i j = Some (np_tan lm (deg2rad (xi / 60)))).
  { subst X. rewrite !at2_grid_map, Hxi. reflexivity. }
  assert (EY : at2 Y i j = Some (np_tan lm (deg2rad (yi / 60)))).
  { subst Y. rewrite !at2_grid_map, Hyi. reflexivity. }
  assert (Erat : at2 rat2 i j = Some (pixel_rat2 lm xi yi)).
  { subst rat2. rewrite at2_grid_zip, !at2_grid_map, EX, EY. reflexivity. }
  assert (Eclamp : any_row (where_gt (Grid rat2) (max_rat2_of lm radius))
                   = clamps lm radius x y) by reflexivity.
  assert (Erat' : at2 rat2' i j =
            Some (if clamps lm radius x y &&
                     PrimFloat.ltb (max_rat2_of lm radius) (pixel_rat2 lm xi yi)
                  then max_rat2_of lm radius else pixel_rat2 lm xi yi)).
  { rewrite (Arat' i j _ Erat), Eclamp. reflexivity. }
  assert (Ephi : at2 phi i j =
            Some (if Nat.eqb i 0
                  then np_arctan2 lm (np_tan lm (deg2rad (xi / 60)))
                         (np_tan lm (deg2rad (yi / 60)))
                  else (0 * pixel_rat2 lm xi yi)%float)).
  { rewrite Aphi. destruct (Nat.eqb i 0) eqn:Ei.
    - apply Nat.eqb_eq in Ei. subst i.
      rewrite at2_grid_zip, AXw, AYw, EX, EY. reflexivity.
    - rewrite at2_grid_map, Erat. reflexivity. }
  assert (Eras : at2 ras2 i j =
            Some (let r := if clamps lm radius x y &&
                              PrimFloat.ltb (max_rat2_of lm radius) (pixel_rat2 lm xi yi)
                           then max_rat2_of lm radius else pixel_rat2 lm xi yi in
                  if Nat.eqb i 0 then (1 / (1 + 1 / r))%float else (0 * r)%float)).
  { rewrite Aras. destruct (Nat.eqb i 0) eqn:Ei.
    - apply Nat.eqb_eq in Ei. subst i.
      rewrite !at2_grid_map, ARw, Erat'. reflexivity.
    - rewrite at2_grid_map, Erat'. reflexivity. }
  unfold pixel_project. cbn [fst snd].
  split.
  - repeat (rewrite ?at2_grid_zip, ?at2_grid_map).
    rewrite Eras, Ephi, Erat'. reflexivity.
  - repeat (rewrite ?at2_grid_zip, ?at2_grid_map).
    rewrite Ephi, Erat'. reflexivity.
Qed.

Lemma at2_opp_yg_of self off i j :
  i < ydim self -> j < xdim self ->
  at2 (grid_map PrimFloat.opp (yg_of self off)) i j = Some (pixel_y self off i).
Proof.
  intros Hi Hj. rewrite at2_grid_map, (at2_yg_of self off i j Hi Hj).
  unfold pixel_y. destruct off as [[dx dy]|]; reflexivity.
Qed.

Lemma at2_xg_of_pixel self off i j :
  i < ydim self -> j < xdim self -> at2 (xg_of self off) i j = Some (pixel_x self off j).
Proof.
  intros Hi Hj. rewrite (at2_xg_of self off i j Hi Hj).
  unfold pixel_x. destruct off as [[dx dy]|]; reflexivity.
Qed.

(** X1. On an image with at least one row, and with offsets that numpy
    adds as floats, the projection returns, for every pixel, the longitude
    and latitude that lines 104-135 give for the pixel's offsets from the
    disk centre -- with the angle [phi] and the ratio [ras2] computed in row
    0 only (they stay [0 * rat2] elsewhere), with the clamp to the limb
    applied only if line 120 finds a pixel beyond the limb outside row 0, and
    with the square of [Robs] at line 128 taken by [pow]. *)
Theorem heliographic_image_pixel (lm : libm) (self : CRD) (d : grid)
    (rest : list pynum) (off : option (float * float)) (i j : nat) :
  float_offsets rest -> offsets self rest = Return off ->
  0 < ydim self -> i < ydim self -> j < xdim self ->
  exists lon lat s',
    heliographic lm (Arr d, rest) self = (s', Return (Grid lon, Grid lat)) /\
    let ll := pixel_project lm (rsun self) (Nat.eqb i 0)
                (clamps lm (rsun self) (xg_of self off)
                   (grid_map PrimFloat.opp (yg_of self off)))
                (pixel_x self off j) (pixel_y self off i) in
    at2 lon i j = Some (rad2deg (fst ll)) /\ at2 lat i j = Some (rad2deg (snd ll)).
Proof.
  intros Hfl Hoff Hh Hi Hj. rewrite heliographic_Arr. unfold heliographic_image.
  rewrite Hoff, (root_fails_floats lm rest self off Hfl).
  destruct (project_at lm (B0 self) (rsun self) (xg_of self off)
              (grid_map PrimFloat.opp (yg_of self off)) (ydim self) (xdim self))
    as [hgln [hglt [-> Hat]]].
  - apply shape_xg_of.
  - apply shape_grid_map, shape_yg_of.
  - exact Hh.
  - cbn [fst snd nd1]. eexists _, _, _. split; [reflexivity|]. cbn zeta.
    destruct (Hat i j _ _ (at2_xg_of_pixel self off i j Hi Hj)
                (at2_opp_yg_of self off i j Hi Hj)) as [Hlon Hlat].
    rewrite !at2_grid_map, Hlon, Hlat. split; reflexivity.
Qed.

Lemma heliographic_image_pixel_small :
  (float_offsets [PyInt 1; PyFloat 0.5] /\
   offsets small_crd [PyInt 1; PyFloat 0.5] = Return (Some (1, 0.5)%float) /\
   0 < ydim small_crd /\ 1 < ydim small_crd /\ 2 < xdim small_crd) /\
  exists lon lat s',
    heliographic libm_ref (Arr (data small_map), [PyInt 1; PyFloat 0.5]) small_crd
      = (s', Return (Grid lon, Grid lat)) /\
    let ll := pixel_project libm_ref (rsun small_crd) (Nat.eqb 1 0)
                (clamps libm_ref (rsun small_crd) (xg_of small_crd (Some (1, 0.5)%float))
                   (grid_map PrimFloat.opp (yg_of small_crd (Some (1, 0.5)%float))))
                (pixel_x small_crd (Some (1, 0.5)%float) 2)
                (pixel_y small_crd (Some (1, 0.5)%float) 1) in
    at2 lon 1 2 = Some (rad2deg (fst ll)) /\ at2 lat 1 2 = Some (rad2deg (snd ll)).
Proof.
  assert (H : float_offsets [PyInt 1; PyFloat 0.5] /\
              offsets small_crd [PyInt 1; PyFloat 0.5] = Return (Some (1, 0.5)%float) /\
              0 < ydim small_crd /\ 1 < ydim small_crd /\ 2 < xdim small_crd)
    by (split; [reflexivity|split; [vm_compute; reflexivity|vm_compute; lia]]).
  split; [exact H|]. destruct H as (H0 & H1 & H2 & H3 & H4).
  exact (heliographic_image_pixel libm_ref small_crd (data small_map) _ _ 1 2
           H0 H1 H2 H3 H4).
Defined.

(** X2. The clamp of lines 119-121 is applied exactly when some pixel
    outside row 0 lies beyond the limb; pixels beyond the limb in row 0 alone
    do not trigger it, so that an image of one row is never clamped. *)
Theorem clamps_iff (lm : libm) (radius : float) (x y : grid) :
  (clamps lm radius x y = true <->
   exists i j a, i <> 0 /\ at2 (rat2_grid lm x y) i j = Some a /\
                 PrimFloat.ltb (max_rat2_of lm radius) a = true) /\
  (forall w, shape 1 w x -> shape 1 w y -> clamps lm radius x y = false).
Proof.
  split.
  - unfold clamps, any_row. rewrite existsb_exists. split.
    + intros [[i j] [Hin Hne]]. apply where_gt_In in Hin.
      destruct Hin as [a [Ha Hlt]]. exists i, j, a. cbn [fst] in Hne.
      split; [|done]. intros ->. discriminate Hne.
    + intros (i & j & a & Hne & Ha & Hlt). exists (i, j). split.
      * apply where_gt_In. eauto.
      * cbn [fst]. destruct i; [contradiction|reflexivity].
  - intros w Hx Hy. unfold clamps. apply (any_row_single_row w).
    unfold rat2_grid. auto 10 with shapes.
Qed.

(** ** Arguments and edges of the call on an image *)

(** X3. A call on the image reads its first argument for its type only, and
    of the further arguments the first two, as the offsets: the pixel grid
    comes from the dimensions of the map.  A single further argument is
    dropped with the [IndexError] that line 85 raises and line 90 catches. *)
Theorem heliographic_image_arguments (lm : libm) (self : CRD) (d d' : grid) :
  (forall rest, heliographic lm (Arr d, rest) self = heliographic lm (Arr d', rest) self) /\
  (forall f, heliographic lm (Arr d, [PyFloat f]) self = heliographic lm (Arr d, []) self) /\
  (forall a1 a2 more,
     heliographic lm (Arr d, a1 :: a2 :: more) self = heliographic lm (Arr d, [a1; a2]) self).
Proof.
  split; [|split].
  - intros rest. now rewrite !heliographic_Arr.
  - intros f. rewrite !heliographic_Arr.
    unfold heliographic_image, offsets, offset_at. cbn [to_float].
    destruct (xdim self); reflexivity.
  - intros a1 a2 more. now rewrite !heliographic_Arr.
Qed.

Lemma shape_0_nil w g : shape 0 w g -> g = [].
Proof. intros [Hl _]. now destruct g. Qed.

(** X4. On an image without rows the projection raises [IndexError] at line
    114 (index 0 is out of bounds), after lines 84-96 have stored the empty
    mesh grids on the object; nothing is cached. *)
Theorem heliographic_empty_image (lm : libm) (self : CRD) (d : grid)
    (rest : list pynum) (off : option (float * float)) :
  ydim self = 0 -> offsets self rest = Return off ->
  heliographic lm (Arr d, rest) self = (meshed self off, Raise IndexError) /\
  xg (meshed self off) = Some [] /\ rg (meshed self off) = Some [] /\
  lonh (meshed self off) = lonh self.
Proof.
  intros Hh Hoff.
  assert (Hx : xg_of self off = []).
  { apply (shape_0_nil (xdim self)). rewrite <- Hh. apply shape_xg_of. }
  assert (Hy : yg_of self off = []).
  { apply (shape_0_nil (xdim self)). rewrite <- Hh. apply shape_yg_of. }
  assert (Hr : rg_of self off = []).
  { apply (shape_0_nil (xdim self)). rewrite <- Hh. apply shape_rg_of. }
  rewrite heliographic_Arr. unfold heliographic_image, root_fails.
  rewrite Hoff, Hx, Hy.
  assert (Hroot : forall xobj yobj, sqrt_of_objects lm xobj yobj [] [] = Return tt)
    by (intros [|] [|]; reflexivity).
  rewrite Hroot.
  split; [reflexivity|]. unfold meshed. cbn [xg rg lonh set_rg set_xg_yg].
  rewrite Hx, Hr. done.
Qed.

Lemma heliographic_empty_image_empty_crd :
  (ydim empty_crd = 0 /\ offsets empty_crd [] = Return None) /\
  heliographic libm_ref (Arr [], []) empty_crd = (meshed empty_crd None, Raise IndexError) /\
  xg (meshed empty_crd None) = Some [] /\ rg (meshed empty_crd None) = Some [] /\
  lonh (meshed empty_crd None) = lonh empty_crd.
Proof.
  assert (H : ydim empty_crd = 0 /\ offsets empty_crd [] = Return None)
    by (split; reflexivity).
  split; [exact H|].
  exact (heliographic_empty_image libm_ref empty_crd [] [] None (proj1 H) (proj2 H)).
Defined.

(** ** Frames: what a method leaves related *)

Section Frame.

Variable R : CRD -> CRD -> Prop.
Hypothesis R_refl : forall s, R s s.
Hypothesis R_trans : forall s1 s2 s3, R s1 s2 -> R s2 s3 -> R s1 s3.

Lemma respects_bind {A B} (m : M A) (k : A -> M B) :
  respects R m -> (forall a, respects R (k a)) -> respects R (bind m k).
Proof.
  intros Hm Hk s. unfold bind. specialize (Hm s).
  destruct (m s) as [s' [a|e]]; cbn [fst] in *; [|exact Hm].
  eapply R_trans; [exact Hm|apply Hk].
Qed.

Lemma respects_pure {A} (m : M A) : (forall s, fst (m s) = s) -> respects R m.
Proof. intros H s. rewrite H. apply R_refl. Qed.

Lemma respects_ret {A} (a : A) : respects R (ret a).
Proof. now apply respects_pure. Qed.

Lemma respects_raise {A} e : respects R (raise (A:=A) e).
Proof. now apply respects_pure. Qed.

Lemma respects_lift {A} (o : outcome A) : respects R (lift o).
Proof. now apply respects_pure. Qed.

Lemma respects_getattr {A} (f : CRD -> A) : respects R (getattr f).
Proof. now apply respects_pure. Qed.

Lemma respects_arg a k : respects R (arg a k).
Proof. apply respects_pure. intros s. unfold arg. now destruct (snd a !! (k - 1)). Qed.

Lemma respects_half n : respects R (minus_half n) /\ respects R (plus_half n).
Proof.
  split; apply respects_pure; intros s; unfold minus_half, plus_half, bind, lift, ret;
    now destruct (to_float n).
Qed.

(** a call of [heliographic] ends in one of four objects *)
Lemma respects_heliographic lm a :
  (forall s off, R s (unrooted s off)) ->
  (forall s off, R s (meshed s off)) -> (forall s ll, R s (cached ll s)) ->
  respects R (heliographic lm a).
Proof.
  intros Hu Hm Hc s. destruct a as [[a0|d] rest].
  - rewrite heliographic_Num_state. apply R_refl.
  - rewrite heliographic_Arr. unfold heliographic_image.
    destruct (offsets s rest) as [off|e]; [|apply R_refl].
    destruct (root_fails lm rest s off); [|apply Hu].
    destruct (project _ _ _ _ _); cbn [fst].
    + eapply R_trans; [apply Hm|apply Hc].
    + apply Hm.
Qed.

End Frame.

Lemma same_products_refl s : same_products s s.
Proof. now split. Qed.

Lemma same_products_trans s1 s2 s3 :
  same_products s1 s2 -> same_products s2 s3 -> same_products s1 s3.
Proof. intros [H1 H2] [H3 H4]. split; congruence. Qed.

Lemma same_products_heliographic lm a : respects same_products (heliographic lm a).
Proof.
  apply respects_heliographic.
  - apply same_products_refl.
  - apply same_products_trans.
  - intros s off. now split.
  - intros s off. now split.
  - intros s ll. unfold cached. destruct (lonh s); now split.
Qed.

Ltac same_products_step :=
  first
    [ apply same_products_heliographic
    | apply respects_bind; [exact same_products_trans| |intros ?]
    | apply respects_ret; exact same_products_refl
    | apply respects_raise; exact same_products_refl
    | apply respects_lift; exact same_products_refl
    | apply respects_getattr; exact same_products_refl
    | apply respects_arg; exact same_products_refl
    | apply (proj1 (respects_half _ same_products_refl _))
    | apply (proj2 (respects_half _ same_products_refl _))
    | match goal with
      | |- respects _ (setattr (set_area _)) => intros ?; now split
      | |- respects _ (match ?x with _ => _ end) => destruct x
      | |- respects _ (let (_, _) := ?x in _) => destruct x
      end ].

Lemma same_products_eoa lm a : respects same_products (eoa lm a).
Proof.
  unfold eoa. destruct a as [[a0|d] rest]; cbn [fst]; repeat same_products_step.
Qed.

Lemma los_corr_state lm sc a self :
  fst (los_corr lm sc a self) =
  match fst a with
  | Arr d => fst (heliographic lm (Arr d, []) self)
  | Num _ => self
  end.
Proof.
  destruct a as [[a0|d] rest]; cbn [fst].
  - destruct (los_corr_Num lm sc a0 rest self) as [-> | ->]; reflexivity.
  - rewrite los_corr_Arr.
    destruct (heliographic lm (Arr d, []) self) as [s' [ll|e]]; reflexivity.
Qed.

Lemma magnetic_flux_state lm sc a self : fst (magnetic_flux lm sc a self) = self.
Proof.
  unfold magnetic_flux, bind at 1, call_area, bind, getattr, raise.
  destruct (area self); reflexivity.
Qed.

Lemma same_products_run lm sc c s : same_products s (run lm sc c s).
Proof.
  destruct c; cbn [run].
  - apply same_products_heliographic.
  - rewrite los_corr_state. destruct (fst a); [apply same_products_refl|].
    apply same_products_heliographic.
  - apply same_products_eoa.
  - rewrite magnetic_flux_state. apply same_products_refl.
Qed.

(** X5. The corrector fails on the image only after the projection has
    run: the object it leaves is the one the projection leaves, with the mesh
    grids and the cache written, although the call raised. *)
Theorem los_corr_leaves_projection_writes (lm : libm) (sc : sun_constants)
    (self : CRD) (d : grid) (rest : list pynum) :
  fst (los_corr lm sc (Arr d, rest) self) = fst (heliographic lm (Arr d, []) self) /\
  is_Return (snd (los_corr lm sc (Arr d, rest) self)) = false.
Proof.
  split.
  - now rewrite los_corr_state.
  - rewrite los_corr_Arr.
    destruct (heliographic lm (Arr d, []) self) as [s' [ll|e]]; reflexivity.
Qed.

(** X6. No sequence of method calls creates or changes the attributes
    [im_corr] and [mgnt_flux]: the statements that assign them (lines 168 and
    242) are never reached. *)
Theorem products_never_written (lm : libm) (sc : sun_constants) (cs : list call)
    (self : CRD) :
  im_corr (run_all lm sc cs self) = im_corr self /\
  mgnt_flux (run_all lm sc cs self) = mgnt_flux self.
Proof.
  revert self. induction cs as [|c cs IH]; intros self; cbn [run_all fold_left].
  - now split.
  - destruct (IH (run lm sc c self)) as [H1 H2].
    destruct (same_products_run lm sc c self) as [H3 H4].
    unfold run_all in *. split; congruence.
Qed.

(** X7. No sequence of method calls changes what construction stored: the
    map, [B0], [L0], [X0], [Y0] and [rsun]. *)
Theorem inputs_never_written (lm : libm) (sc : sun_constants) (cs : list call)
    (self : CRD) :
  im_raw (run_all lm sc cs self) = im_raw self /\
  B0 (run_all lm sc cs self) = B0 self /\
  L0 (run_all lm sc cs self) = L0 self /\
  X0 (run_all lm sc cs self) = X0 self /\
  Y0 (run_all lm sc cs self) = Y0 self /\
  rsun (run_all lm sc cs self) = rsun self.
Proof.
  destruct (keeps_run_all lm sc cs self) as [H _].
  unfold inputs in H. injection H as H1 H2 H3 H4 H5 H6. auto 10.
Qed.

(** ** The area grid: what it depends on and what it leaves *)

Lemma heliographic_offsets_step lm d dx dy s :
  exists s',
    heliographic lm (Arr d, [PyFloat dx; PyFloat dy]) s
      = (s', lon_lat lm s (Some (dx, dy))) /\
    inputs s' = inputs s /\ rg s' = Some (rg_of s (Some (dx, dy))).
Proof.
  rewrite heliographic_Arr, heliographic_image_floats. unfold lon_lat.
  destruct (project _ _ _ _ _) as [ll|e]; cbn [obind]; eexists;
    (split; [reflexivity|]).
  - split; [now rewrite inputs_cached, inputs_meshed|].
    unfold cached. destruct (lonh (meshed s (Some (dx, dy)))); reflexivity.
  - split; reflexivity.
Qed.

Lemma eoa_Arr_result lm d rest self :
  snd (eoa lm (Arr d, rest) self) = eoa_image_result lm self.
Proof.
  unfold eoa, eoa_image_result, off_UL, off_LL, off_LR, off_UR. cbn [fst].
  destruct (heliographic_offsets_step lm d (-0.5) (-0.5) self) as (s1 & C1 & I1 & _).
  destruct (heliographic_offsets_step lm d 0.5 (-0.5) s1) as (s2 & C2 & I2 & _).
  destruct (heliographic_offsets_step lm d 0.5 0.5 s2) as (s3 & C3 & I3 & _).
  destruct (heliographic_offsets_step lm d (-0.5) 0.5 s3) as (s4 & C4 & I4 & R4).
  assert (J2 : inputs s2 = inputs self) by congruence.
  assert (J3 : inputs s3 = inputs self) by congruence.
  assert (J4 : inputs s4 = inputs self) by congruence.
  rewrite (lon_lat_inputs lm s1 self _ I1) in C2.
  rewrite (lon_lat_inputs lm s2 self _ J2) in C3.
  rewrite (lon_lat_inputs lm s3 self _ J3) in C4.
  rewrite (rg_of_inputs s3 self _ J3) in R4.
  assert (Hrsun : rsun s4 = rsun self) by (unfold inputs in J4; now injection J4).
  destruct (lon_lat lm self (Some (-0.5, -0.5)%float)) as [UL|e]; cbn [obind].
  2: { erewrite bind_Raise; [reflexivity|]. apply bind_Raise. exact C1. }
  destruct (lon_lat lm self (Some (0.5, -0.5)%float)) as [LL|e]; cbn [obind].
  2: { erewrite bind_Raise; [reflexivity|]. erewrite bind_Return by exact C1.
       apply bind_Raise. exact C2. }
  destruct (lon_lat lm self (Some (0.5, 0.5)%float)) as [LR|e]; cbn [obind].
  2: { erewrite bind_Raise; [reflexivity|]. erewrite bind_Return by exact C1.
       erewrite bind_Return by exact C2. apply bind_Raise. exact C3. }
  destruct (lon_lat lm self (Some (-0.5, 0.5)%float)) as [UR|e]; cbn [obind].
  2: { erewrite bind_Raise; [reflexivity|]. erewrite bind_Return by exact C1.
       erewrite bind_Return by exact C2. erewrite bind_Return by exact C3.
       apply bind_Raise. exact C4. }
  erewrite bind_Return; cycle 1.
  { erewrite bind_Return by exact C1. erewrite bind_Return by exact C2.
    erewrite bind_Return by exact C3. erewrite bind_Return by exact C4.
    reflexivity. }
  cbv beta iota zeta. fold (area_value lm UL LL LR UR).
  unfold bind, setattr, getattr, lift, ret. cbn [rg set_area rsun].
  rewrite R4, Hrsun.
  destruct (setitem_at _ _ _); reflexivity.
Qed.

Lemma geometry_grids s1 s2 off :
  geometry s1 = geometry s2 ->
  xg_of s1 off = xg_of s2 off /\ yg_of s1 off = yg_of s2 off /\ rg_of s1 off = rg_of s2 off.
Proof.
  unfold geometry. intros [= Hs Hd Hx Hy Hr].
  unfold rg_of, xg_of, yg_of, xrow_of, yrow_of. now rewrite Hs, Hd, Hx, Hy.
Qed.

Lemma lon_lat_geometry lm s1 s2 off :
  geometry s1 = geometry s2 -> lon_lat lm s1 off = lon_lat lm s2 off.
Proof.
  intros Hg. destruct (geometry_grids s1 s2 off Hg) as (Hx & Hy & _).
  unfold geometry in Hg. injection Hg as _ _ _ _ Hr.
  unfold lon_lat. rewrite Hx, Hy, Hr. reflexivity.
Qed.

(** X8. What a call on the image returns, from the projection and from the
    area operation, is a function of the pixel scale, the dimensions, the disk
    centre and the radius alone: the tilt [B0] (read at line 104 and not
    used), [L0], the intensities, the header and the grids that earlier calls
    left on the object have no part in it. *)
Theorem image_results_depend_on_geometry (lm : libm) (s1 s2 : CRD) (d1 d2 : grid)
    (rest r1 r2 : list pynum) :
  geometry s1 = geometry s2 ->
  snd (heliographic lm (Arr d1, rest) s1) = snd (heliographic lm (Arr d2, rest) s2) /\
  snd (eoa lm (Arr d1, r1) s1) = snd (eoa lm (Arr d2, r2) s2).
Proof.
  intros Hg. split.
  - rewrite !heliographic_Arr, !heliographic_image_result.
    assert (Ho : offsets s1 rest = offsets s2 rest).
    { unfold offsets, xdim, ydim. unfold geometry in Hg.
      injection Hg as _ Hd _ _ _. now rewrite Hd. }
    rewrite Ho. destruct (offsets s2 rest) as [off|e]; [|reflexivity]. cbn [obind].
    unfold root_fails.
    destruct (geometry_grids s1 s2 off Hg) as (-> & -> & _).
    now rewrite (lon_lat_geometry lm s1 s2 off Hg).
  - rewrite !eoa_Arr_result. unfold eoa_image_result.
    rewrite !(lon_lat_geometry lm s1 s2 _ Hg).
    destruct (geometry_grids s1 s2 off_UR Hg) as (_ & _ & ->).
    unfold geometry in Hg. injection Hg as _ _ _ _ ->. reflexivity.
Qed.

Lemma image_results_depend_on_geometry_tilted :
  geometry small_crd = geometry tilted_crd /\
  snd (heliographic libm_ref (Arr (data small_map), []) small_crd)
    = snd (heliographic libm_ref (Arr [], []) tilted_crd) /\
  snd (eoa libm_ref (Arr (data small_map), []) small_crd)
    = snd (eoa libm_ref (Arr [], [PyInt 3]) tilted_crd).
Proof.
  assert (H : geometry small_crd = geometry tilted_crd) by reflexivity.
  split; [exact H|].
  exact (image_results_depend_on_geometry libm_ref small_crd tilted_crd
           (data small_map) [] [] [] [PyInt 3] H).
Defined.

Lemma bind_assoc {A B C} (m : M A) (k1 : A -> M B) (k2 : B -> M C) s :
  bind (bind m k1) k2 s = bind m (fun a => bind (k1 a) k2) s.
Proof. unfold bind. destruct (m s) as [s' [a|e]]; reflexivity. Qed.

(** X9. On an object without cached grids, the area operation on the image
    fills the cache: [lonh] and [lath] get the projection of its first
    corner, the one at offset (-0.5, -0.5), and not the projection of the
    pixels themselves. *)
Theorem eoa_caches_first_corner (lm : libm) (self : CRD) (d : grid) (rest : list pynum) :
  0 < ydim self -> lonh self = None ->
  exists lon lat,
    snd (heliographic lm (Arr d, [PyFloat (-0.5); PyFloat (-0.5)]) self)
      = Return (Grid lon, Grid lat) /\
    lonh (fst (eoa lm (Arr d, rest) self)) = Some (Grid lon) /\
    lath (fst (eoa lm (Arr d, rest) self)) = Some (Grid lat).
Proof.
  intros Hh Hnone.
  destruct (lon_lat_returns lm self (Some (-0.5, -0.5)%float) Hh)
    as [lon [lat [E _]]].
  exists lon, lat.
  assert (C : exists s1,
            heliographic lm (Arr d, [PyFloat (-0.5); PyFloat (-0.5)]) self
              = (s1, Return (Grid lon, Grid lat)) /\
            lonh s1 = Some (Grid lon) /\ lath s1 = Some (Grid lat)).
  { rewrite heliographic_Arr, heliographic_image_floats. unfold lon_lat in E.
    destruct (project _ _ _ _ _) as [ll|e]; [|discriminate].
    cbn [obind] in E. injection E as E1 E2. rewrite E1, E2.
    eexists. split; [reflexivity|].
    unfold cached, meshed. cbn. rewrite Hnone. cbn. rewrite E1, E2. done. }
  destruct C as (s1 & C1 & Hlon & Hlat).
  split; [now rewrite C1|].
  unfold eoa. cbn [fst]. rewrite !bind_assoc.
  erewrite bind_Return by exact C1.
  match goal with
  | |- lonh (fst (?m s1)) = _ /\ _ => assert (P : preserves m)
  end.
  { repeat preserves_step. }
  destruct (P s1) as [_ K]. destruct (K _ Hlon) as [K1 K2].
  split; [exact K1|congruence].
Qed.

Lemma eoa_caches_first_corner_small :
  (0 < ydim small_crd /\ lonh small_crd = None) /\
  exists lon lat,
    snd (heliographic libm_ref (Arr (data small_map), [PyFloat (-0.5); PyFloat (-0.5)])
           small_crd) = Return (Grid lon, Grid lat) /\
    lonh (fst (eoa libm_ref (Arr (data small_map), []) small_crd)) = Some (Grid lon) /\
    lath (fst (eoa libm_ref (Arr (data small_map), []) small_crd)) = Some (Grid lat).
Proof.
  assert (H : 0 < ydim small_crd /\ lonh small_crd = None)
    by (split; [vm_compute; lia|reflexivity]).
  split; [exact H|].
  exact (eoa_caches_first_corner libm_ref small_crd (data small_map) []
           (proj1 H) (proj2 H)).
Defined.

(** X10. On an image with at least one row the area operation returns an
    array of the image's shape; the object holds that array in [area], and in
    [rg] the radial distances of the last corner, the one at (-0.5, +0.5). *)
Theorem eoa_stores_its_result (lm : libm) (self : CRD) (d : grid) (rest : list pynum) :
  0 < ydim self ->
  exists a s',
    eoa lm (Arr d, rest) self = (s', Return (Grid a)) /\
    shape (ydim self) (xdim self) a /\
    area s' = Some (Grid a) /\
    rg s' = Some (rg_of self off_UR) /\
    forall i j, i < ydim self -> j < xdim self ->
      at2 (rg_of self off_UR) i j = Some (corner_distance self i j).
Proof.
  intros Hh.
  destruct (eoa_image lm d rest self Hh)
    as (lon1 & lat1 & lon2 & lat2 & lon3 & lat3 & lon4 & lat4 & v & a & s' &
        _ & _ & _ & _ & Hshapes & _ & He & Hr & Ha & _).
  exists a, s'. split; [exact He|]. split.
  - rewrite Forall_forall in Hshapes. apply Hshapes.
    apply list_elem_of_In. do 9 right. now left.
  - split; [exact Ha|]. split; [exact Hr|].
    intros i j Hi Hj. now rewrite (at2_rg_of self off_UR i j Hi Hj).
Qed.

Lemma eoa_stores_its_result_small :
  0 < ydim small_crd /\
  exists a s',
    eoa libm_ref (Arr (data small_map), []) small_crd = (s', Return (Grid a)) /\
    shape (ydim small_crd) (xdim small_crd) a /\
    area s' = Some (Grid a) /\
    rg s' = Some (rg_of small_crd off_UR) /\
    forall i j, i < ydim small_crd -> j < xdim small_crd ->
      at2 (rg_of small_crd off_UR) i j = Some (corner_distance small_crd i j).
Proof.
  assert (H : 0 < ydim small_crd) by (vm_compute; lia).
  split; [exact H|].
  exact (eoa_stores_its_result libm_ref small_crd (data small_map) [] H).
Defined.

(** ** The module's [dot] *)

Lemma mul_comm (x y : float) : (x * y = y * x)%float.
Proof.
  apply Prim2SF_inj. rewrite !mul_spec. unfold SF64mul, SFmul.
  destruct (Prim2SF x) as [sx|sx| |sx mx ex], (Prim2SF y) as [sy|sy| |sy my ey];
    try reflexivity; try (now rewrite xorb_comm).
  now rewrite xorb_comm, Pos.mul_comm, Z.add_comm.
Qed.

Lemma zip_with_comm {A B} (f : A -> A -> B) (l k : list A) :
  (forall x y, f x y = f y x) -> zip_with f l k = zip_with f k l.
Proof.
  intros Hf. revert k. induction l as [|a l IH]; intros [|b k]; cbn; try reflexivity.
  now rewrite Hf, IH.
Qed.

Lemma nd2_comm f v w : (forall x y, f x y = f y x) -> nd2 f v w = nd2 f w v.
Proof.
  intros Hf. destruct v as [a|g], w as [b|h]; cbn [nd2].
  - now rewrite Hf.
  - f_equal. unfold grid_map. apply list_fmap_ext. intros _ row _.
    apply list_fmap_ext. intros _ x _. apply Hf.
  - f_equal. unfold grid_map. apply list_fmap_ext. intros _ row _.
    apply list_fmap_ext. intros _ x _. apply Hf.
  - f_equal. unfold grid_zip. apply zip_with_comm. intros r1 r2.
    now apply zip_with_comm.
Qed.

(** X12. The module's [dot] is symmetric, for scalars and for arrays:
    [dot(a, b)] and [dot(b, a)] are the same value, entry for entry and
    without a rounding difference, since the binary64 product commutes
    (not-a-number being one value). *)
Theorem dot_symmetric (a b : vec3) : dot a b = dot b a.
Proof.
  destruct a as [[a0 a1] a2], b as [[b0 b1] b2]. unfold dot.
  rewrite (nd2_comm PrimFloat.mul a0 b0 mul_comm).
  rewrite (nd2_comm PrimFloat.mul a1 b1 mul_comm).
  rewrite (nd2_comm PrimFloat.mul a2 b2 mul_comm).
  reflexivity.
Qed.

(** ** Construction, case by case *)

(** X13. Construction reads the four fields in the order B0, L0, X0, Y0 and
    stops at the first that has neither key, with the [KeyError] of its
    second key.  With every field there, the detector "SPMG" takes the radius
    divided by the header's SCALE and fails with [KeyError] when that key is
    missing; any other detector takes the radius as it is and does not read
    SCALE.  The object returned has none of the derived attributes. *)
Theorem init_outcome (im : Map) :
  __init__ im =
  match first_missing (meta im) with
  | Some f => Raise (KeyError (full_key f))
  | None =>
      let at_ f := default 0%float (first_found (meta im) f) in
      if String.eqb (detector im) "SPMG" then
        match meta im !! "SCALE" with
        | Some s => Return (fresh im (at_ FB0) (at_ FL0) (at_ FX0) (at_ FY0)
                              (rsun_obs im / s)%float)
        | None => Raise (KeyError "SCALE")
        end
      else Return (fresh im (at_ FB0) (at_ FL0) (at_ FX0) (at_ FY0) (rsun_obs im))
  end.
Proof.
  rewrite init_unfold, !first_found_fallback. unfold first_missing.
  destruct (first_found (meta im) FB0) as [b0|]; [|reflexivity].
  destruct (first_found (meta im) FL0) as [l0|]; [|reflexivity].
  destruct (first_found (meta im) FX0) as [x0|]; [|reflexivity].
  destruct (first_found (meta im) FY0) as [y0|]; [|reflexivity].
  cbn [obind default]. destruct (String.eqb (detector im) "SPMG"); [|reflexivity].
  unfold getitem_meta. destruct (meta im !! "SCALE"); reflexivity.
Qed.

(** ** Objects that method calls leave *)

Lemma project_returns_shape lm b0 radius x y h w ll :
  shape h w x -> shape h w y ->
  project lm b0 radius (Grid x) (Grid y) = Return ll ->
  ndshape h w (fst ll) /\ ndshape h w (snd ll).
Proof.
  intros Hx Hy E. destruct h as [|h].
  - apply shape_0_nil in Hx, Hy. subst x y. discriminate E.
  - destruct (project_shape lm b0 radius (Grid x) (Grid y) (S h) w Hx Hy)
      as [hgln [hglt [E' [Hn Ht]]]]; [lia|].
    rewrite E' in E. injection E as <-. done.
Qed.

Lemma xdim_inputs s1 s2 : inputs s1 = inputs s2 -> xdim s1 = xdim s2.
Proof. unfold inputs, xdim. now intros [= -> _ _ _ _ _]. Qed.

Lemma consistent_meshed b s off : consistent b s -> consistent b (meshed s off).
Proof.
  intros (_ & Hlon & Hlat & Ha & Hll & _ & Hal).
  split.
  - right. exists off. split; [done|]. split; [done|].
    destruct b; [done|]. right. now exists off.
  - repeat split; try assumption; try apply Hll.
    intros _. eexists. reflexivity.
Qed.

Lemma consistent_unrooted s off : consistent false s -> consistent false (unrooted s off).
Proof.
  intros (Hm & Hlon & Hlat & Ha & Hll & Hr & Hal).
  split.
  - right. exists off. split; [done|]. split; [done|].
    destruct Hm as [(_ & _ & Hn)|(off0 & _ & _ & Hrg)]; [now left|exact Hrg].
  - repeat split; try assumption; try apply Hll.
Qed.

Lemma consistent_cached b s ll :
  consistent b s -> is_Some (rg s) ->
  ndshape (ydim s) (xdim s) (fst ll) -> ndshape (ydim s) (xdim s) (snd ll) ->
  consistent b (cached ll s) /\ is_Some (lonh (cached ll s)).
Proof.
  intros Hc Hrg Hn Ht. unfold cached.
  destruct (lonh s) as [v|] eqn:E.
  - split; [exact Hc|]. rewrite E. eexists. reflexivity.
  - destruct Hc as (Hm & Hlon & Hlat & Ha & Hll & Hr & Hal).
    split; [|eexists; reflexivity].
    split; [exact Hm|]. repeat split; try (eexists; reflexivity).
    + apply nd1_shape, Hn.
    + apply nd1_shape, Ht.
    + exact Ha.
    + intros _. exact Hrg.
Qed.

(** a call of the projection on a consistent object *)
Lemma consistent_heliographic lm b a s :
  consistent b s -> (b = true -> float_call (Heliographic a)) ->
  match heliographic lm a s with
  | (s', Return ll) =>
      consistent b s' /\ inputs s' = inputs s /\ is_Some (lonh s') /\
      ndshape (ydim s) (xdim s) (fst ll) /\ ndshape (ydim s) (xdim s) (snd ll)
  | (s', Raise _) => consistent b s' /\ inputs s' = inputs s /\ area s' = area s
  end.
Proof.
  intros Hc Hfl. destruct a as [[a0|d] rest].
  - destruct (heliographic_Num lm a0 rest s) as [-> | ->]; done.
  - rewrite heliographic_Arr. unfold heliographic_image.
    destruct (offsets s rest) as [off|e]; [|done].
    destruct (root_fails lm rest s off) as [[]|e] eqn:Er.
    + destruct (project _ _ _ _ _) as [ll|e] eqn:E.
      * apply project_returns_shape with (h := ydim s) (w := xdim s) in E;
          [|apply shape_xg_of|apply shape_grid_map, shape_yg_of].
        destruct E as [Hn Ht].
        destruct (consistent_cached b (meshed s off) ll) as [H1 H2];
          [now apply consistent_meshed|eexists; reflexivity|exact Hn|exact Ht|].
        split; [exact H1|]. split; [now rewrite inputs_cached|].
        split; [exact H2|]. split; now apply nd1_shape.
      * split; [now apply consistent_meshed|]. done.
    + destruct b.
      * cbn [float_call] in Hfl.
        rewrite (root_fails_floats lm rest s off (Hfl eq_refl)) in Er. discriminate Er.
      * split; [now apply consistent_unrooted|]. done.
Qed.

Lemma consistent_set_area b s v :
  consistent b s -> is_Some (lonh s) -> ndshape (ydim s) (xdim s) v ->
  consistent b (set_area v s).
Proof.
  intros (Hm & Hlon & Hlat & Ha & Hll & Hr & Hal) Hl Hv.
  split; [exact Hm|]. repeat split; try assumption; try apply Hll.
  intros _. exact Hl.
Qed.

Lemma rg_of_consistent b s :
  consistent b s -> is_Some (rg s) -> exists off, rg s = Some (rg_of s off).
Proof.
  intros (Hm & _) [g Hg].
  destruct Hm as [(_ & _ & Hn)|(off & _ & _ & Hrg)]; [congruence|].
  destruct b; [now exists off|].
  destruct Hrg as [Hn|[off' Hrg]]; [congruence|now exists off'].
Qed.

Lemma consistent_eoa lm b a s : consistent b s -> consistent b (fst (eoa lm a s)).
Proof.
  intros Hc. destruct a as [[a0|d] rest].
  - destruct (eoa_Num lm a0 rest s) as [-> | ->]; exact Hc.
  - unfold eoa. cbn [fst]. unfold bind at 1. unfold bind at 1.
    pose proof (consistent_heliographic lm b
                  (Arr d, [PyFloat (-0.5); PyFloat (-0.5)]%float) s Hc
                  (fun _ => object_offsets_floats _ _)) as H1.
    destruct (heliographic lm _ s) as [s1 [UL|e]]; [|apply H1].
    destruct H1 as (C1 & I1 & _ & N1 & T1).
    unfold bind at 1.
    pose proof (consistent_heliographic lm b
                  (Arr d, [PyFloat 0.5; PyFloat (-0.5)]%float) s1 C1
                  (fun _ => object_offsets_floats _ _)) as H2.
    destruct (heliographic lm _ s1) as [s2 [LL|e]]; [|apply H2].
    destruct H2 as (C2 & I2 & _ & N2 & T2).
    unfold bind at 1.
    pose proof (consistent_heliographic lm b
                  (Arr d, [PyFloat 0.5; PyFloat 0.5]%float) s2 C2
                  (fun _ => object_offsets_floats _ _)) as H3.
    destruct (heliographic lm _ s2) as [s3 [LR|e]]; [|apply H3].
    destruct H3 as (C3 & I3 & _ & N3 & T3).
    unfold bind at 1.
    pose proof (consistent_heliographic lm b
                  (Arr d, [PyFloat (-0.5); PyFloat 0.5]%float) s3 C3
                  (fun _ => object_offsets_floats _ _)) as H4.
    destruct (heliographic lm _ s3) as [s4 [UR|e]]; [|apply H4].
    destruct H4 as (C4 & I4 & L4 & N4 & T4).
    assert (J : inputs s4 = inputs s) by congruence.
    assert (Hh : forall v, ndshape (ydim s) (xdim s) v -> ndshape (ydim s4) (xdim s4) v).
    { intros v. now rewrite (ydim_inputs _ _ J), (xdim_inputs _ _ J). }
    assert (Hv : ndshape (ydim s4) (xdim s4) (area_value lm UL LL LR UR)).
    { apply area_value_shape; apply Hh; try assumption.
      all: first [ now rewrite <- (ydim_inputs _ _ I1), <- (xdim_inputs _ _ I1)
                 | rewrite <- (ydim_inputs _ _ I1), <- (xdim_inputs _ _ I1);
                   now rewrite <- (ydim_inputs _ _ I2), <- (xdim_inputs _ _ I2)
                 | rewrite <- (ydim_inputs _ _ I1), <- (xdim_inputs _ _ I1);
                   rewrite <- (ydim_inputs _ _ I2), <- (xdim_inputs _ _ I2);
                   now rewrite <- (ydim_inputs _ _ I3), <- (xdim_inputs _ _ I3) ]. }
    unfold area_value in Hv. unfold ret at 1. cbv beta iota.
    set (v := nd1 PrimFloat.abs _) in *.
    pose proof (consistent_set_area b s4 v C4 L4 Hv) as Cv.
    unfold bind, setattr, getattr, lift, ret, raise.
    destruct (rg_of_consistent b s4 C4) as [off Hrg].
    { destruct C4 as (_ & _ & _ & _ & _ & Hr & _). exact (Hr L4). }
    cbn [rg set_area]. rewrite Hrg.
    destruct (setitem_at_shape (ydim s4) (xdim s4) v
                (where_gt (Grid (rg_of s4 off)) (rsun (set_area v s4))) nan Hv)
      as [v' [-> Hv']].
    { intros i j. apply where_gt_nd_bounds. apply shape_rg_of. }
    cbn [fst]. apply consistent_set_area; [exact Cv|exact L4|exact Hv'].
Qed.

Lemma consistent_run lm sc b c s :
  consistent b s -> (b = true -> float_call c) -> consistent b (run lm sc c s).
Proof.
  intros Hc Hfl. destruct c; cbn [run].
  - pose proof (consistent_heliographic lm b a s Hc Hfl) as H.
    destruct (heliographic lm a s) as [s' [ll|e]]; apply H.
  - rewrite los_corr_state. destruct (fst a) as [a0|d]; [exact Hc|].
    pose proof (consistent_heliographic lm b (Arr d, []) s Hc
                  (fun _ => object_offsets_nil)) as H.
    destruct (heliographic lm _ s) as [s' [ll|e]]; apply H.
  - now apply consistent_eoa.
  - now rewrite magnetic_flux_state.
Qed.

Lemma consistent_run_all lm sc b cs : forall s,
  consistent b s -> (b = true -> Forall float_call cs) ->
  consistent b (run_all lm sc cs s).
Proof.
  induction cs as [|c cs IH]; intros s Hc Hfl; cbn [run_all fold_left].
  - exact Hc.
  - apply IH.
    + apply consistent_run; [exact Hc|].
      intros Hb. specialize (Hfl Hb). now inversion Hfl.
    + intros Hb. specialize (Hfl Hb). now inversion Hfl.
Qed.

Lemma consistent_fresh b im b0 l0 x0 y0 r : consistent b (fresh im b0 l0 x0 y0 r).
Proof.
  split; [left; done|]. repeat split; try done.
  all: intros [v Hv]; discriminate Hv.
Qed.

Lemma init_returns_fresh im self :
  __init__ im = Return self -> exists b0 l0 x0 y0 r, self = fresh im b0 l0 x0 y0 r.
Proof.
  unfold __init__. intros H.
  destruct (meta_fallback (meta im) "B0" "OBS_B0") as [b0|]; [|discriminate].
  destruct (meta_fallback (meta im) "L0" "OBS_L0") as [l0|]; [|discriminate].
  destruct (meta_fallback (meta im) "X0" "IMG_X0") as [x0|]; [|discriminate].
  destruct (meta_fallback (meta im) "Y0" "IMG_Y0") as [y0|]; [|discriminate].
  cbn [obind] in H.
  destruct (if String.eqb (detector im) "SPMG" then _ else _) as [r|]; [|discriminate].
  injection H as <-. now exists b0, l0, x0, y0, r.
Qed.

(** X14. Whatever methods are called on an object after its construction,
    and whether they return or raise, the object stays consistent: [xg] and
    [yg] are absent with [rg] or are the mesh grids of one pair of offsets,
    and [rg], when there, is the grid of radial distances of some pair of
    offsets; the cache [lonh], [lath] is absent or complete; [lonh], [lath]
    and [area] have the shape of the image; the cache exists only with [rg]
    and the area only with the cache.  When no projection of the image is
    given an int offset beyond 64 bits (the calls that raise at line 87
    after writing [xg] and [yg]), [rg] belongs to the offsets of [xg] and
    [yg]. *)
Theorem reachable_objects_are_consistent (lm : libm) (sc : sun_constants) (im : Map)
    (self : CRD) (cs : list call) :
  __init__ im = Return self ->
  consistent false (run_all lm sc cs self) /\
  (Forall float_call cs -> consistent true (run_all lm sc cs self)).
Proof.
  intros Hinit.
  destruct (init_returns_fresh im self Hinit) as (b0 & l0 & x0 & y0 & r & ->).
  split.
  - apply consistent_run_all; [apply consistent_fresh|discriminate].
  - intros Hfl. apply consistent_run_all; [apply consistent_fresh|now intros _].
Qed.

Lemma reachable_objects_are_consistent_small :
  __init__ small_map = Return small_crd /\
  consistent false
    (run_all libm_ref sunpy_constants
       [Heliographic (Arr (data small_map), [PyInt (2 ^ 70); PyInt 0]);
        Eoa (Arr (data small_map), []); LosCorr (Arr (data small_map), []);
        Heliographic (Num (PyInt 1), [PyInt 2]); MagneticFlux (Arr (data small_map), [])]
       small_crd) /\
  (Forall float_call
       [Heliographic (Arr (data small_map), [PyInt (2 ^ 70); PyInt 0]);
        Eoa (Arr (data small_map), []); LosCorr (Arr (data small_map), []);
        Heliographic (Num (PyInt 1), [PyInt 2]); MagneticFlux (Arr (data small_map), [])] ->
   consistent true
    (run_all libm_ref sunpy_constants
       [Heliographic (Arr (data small_map), [PyInt (2 ^ 70); PyInt 0]);
        Eoa (Arr (data small_map), []); LosCorr (Arr (data small_map), []);
        Heliographic (Num (PyInt 1), [PyInt 2]); MagneticFlux (Arr (data small_map), [])]
       small_crd)).
Proof.
  assert (H : __init__ small_map = Return small_crd) by reflexivity.
  split; [exact H|].
  exact (reachable_objects_are_consistent libm_ref sunpy_constants small_map small_crd
           _ H).
Defined.

(** ** Calls one after another *)

Lemma cached_mesh ll s :
  xg (cached ll s) = xg s /\ yg (cached ll s) = yg s /\ rg (cached ll s) = rg s.
Proof. unfold cached. destruct (lonh s); done. Qed.

Lemma shape_has_entries h w g : shape h w g -> 0 < h -> 0 < w -> has_entries g = true.
Proof.
  intros [Hl Hr] Hh Hw. destruct g as [|row g]; [cbn in Hl; lia|].
  apply Forall_cons in Hr. destruct Hr as [Hrow _].
  destruct row; [cbn in Hrow; lia|reflexivity].
Qed.

(** line 87 raises on an array of objects that has entries *)
Lemma root_fails_objects lm rest self off :
  ~ float_offsets rest -> 0 < xdim self -> 0 < ydim self ->
  root_fails lm rest self off = Raise TypeError \/
  root_fails lm rest self off = Raise OverflowError.
Proof.
  intros Hfl Hw Hh. unfold root_fails, float_offsets in *.
  destruct (object_offsets rest) as [xobj yobj]. cbn [fst snd].
  assert (He : has_entries (xg_of self off) = true)
    by (apply (shape_has_entries (ydim self) (xdim self)); [apply shape_xg_of|lia..]).
  unfold sqrt_of_objects, object_power2. rewrite He.
  destruct xobj, yobj; cbn [orb]; try (now destruct Hfl);
    repeat match goal with
           | |- context [existsb ?f ?g] => destruct (existsb f g); cbn [obind]
           end; auto.
Qed.

(** X15. Every call on the image that gets to line 86 overwrites [xg] and
    [yg] with the mesh grids of its own offsets, whatever the object held
    before and whether the call returns or raises later: [xg] holds the
    scaled column offsets and [yg] (negated at lines 89 and 96 for the
    projection) the scaled row offsets.  With offsets that numpy adds as
    floats [rg] is overwritten as well; with an int offset beyond 64 bits,
    on an image that has pixels, line 87 raises ([TypeError], or
    [OverflowError] from a square) and [rg] stays as it was. *)
Theorem heliographic_mesh_last_call_wins (lm : libm) (self : CRD) (d : grid)
    (rest : list pynum) (off : option (float * float)) :
  offsets self rest = Return off ->
  let r := heliographic lm (Arr d, rest) self in
  xg (fst r) = Some (xg_of self off) /\ yg (fst r) = Some (yg_of self off) /\
  (float_offsets rest -> rg (fst r) = Some (rg_of self off)) /\
  (~ float_offsets rest -> 0 < xdim self -> 0 < ydim self ->
     rg (fst r) = rg self /\
     (snd r = Raise TypeError \/ snd r = Raise OverflowError)) /\
  forall i j, i < ydim self -> j < xdim self ->
    at2 (xg_of self off) i j = Some (pixel_x self off j) /\
    at2 (grid_map PrimFloat.opp (yg_of self off)) i j = Some (pixel_y self off i).
Proof.
  intros Hoff. cbn zeta. rewrite heliographic_Arr. unfold heliographic_image.
  rewrite Hoff.
  assert (Hat : forall i j, i < ydim self -> j < xdim self ->
            at2 (xg_of self off) i j = Some (pixel_x self off j) /\
            at2 (grid_map PrimFloat.opp (yg_of self off)) i j = Some (pixel_y self off i)).
  { intros i j Hi Hj. split; [now apply at2_xg_of_pixel|now apply at2_opp_yg_of]. }
  destruct (root_fails lm rest self off) as [[]|e] eqn:Er.
  - assert (Hno : ~ float_offsets rest -> 0 < xdim self -> 0 < ydim self -> False).
    { intros Hfl Hw Hh.
      destruct (root_fails_objects lm rest self off Hfl Hw Hh); congruence. }
    destruct (project _ _ _ _ _) as [ll|e]; cbn [fst snd].
    + destruct (cached_mesh ll (meshed self off)) as (-> & -> & ->).
      split; [done|]. split; [done|]. split; [done|]. split; [|exact Hat].
      intros Hfl Hw Hh. exfalso. auto.
    + split; [done|]. split; [done|]. split; [done|]. split; [|exact Hat].
      intros Hfl Hw Hh. exfalso. auto.
  - cbn [fst snd]. split; [done|]. split; [done|]. split; [|split; [|exact Hat]].
    + intros Hfl. rewrite (root_fails_floats lm rest self off Hfl) in Er. discriminate Er.
    + intros Hfl Hw Hh. split; [done|].
      destruct (root_fails_objects lm rest self off Hfl Hw Hh) as [H|H];
        rewrite H in Er; injection Er as <-; auto.
Qed.

Lemma heliographic_mesh_last_call_wins_small :
  offsets small_crd [PyInt (2 ^ 70); PyInt 0]
    = Return (Some (Z2float (2 ^ 70), 0)%float) /\
  let off := Some (Z2float (2 ^ 70), 0)%float in
  let r := heliographic libm_ref (Arr (data small_map), [PyInt (2 ^ 70); PyInt 0])
             small_crd in
  xg (fst r) = Some (xg_of small_crd off) /\ yg (fst r) = Some (yg_of small_crd off) /\
  (float_offsets [PyInt (2 ^ 70); PyInt 0] -> rg (fst r) = Some (rg_of small_crd off)) /\
  (~ float_offsets [PyInt (2 ^ 70); PyInt 0] -> 0 < xdim small_crd -> 0 < ydim small_crd ->
     rg (fst r) = rg small_crd /\
     (snd r = Raise TypeError \/ snd r = Raise OverflowError)) /\
  forall i j, i < ydim small_crd -> j < xdim small_crd ->
    at2 (xg_of small_crd off) i j = Some (pixel_x small_crd off j) /\
    at2 (grid_map PrimFloat.opp (yg_of small_crd off)) i j = Some (pixel_y small_crd off i).
Proof.
  assert (H : offsets small_crd [PyInt (2 ^ 70); PyInt 0]
              = Return (Some (Z2float (2 ^ 70), 0)%float))
    by (vm_compute; reflexivity).
  split; [exact H|].
  exact (heliographic_mesh_last_call_wins libm_ref small_crd (data small_map) _ _ H).
Defined.

Lemma xg_yg_of_inputs s1 s2 off :
  inputs s1 = inputs s2 -> xg_of s1 off = xg_of s2 off /\ yg_of s1 off = yg_of s2 off.
Proof.
  unfold inputs. intros [= Him Hb Hl Hx Hy Hr].
  unfold xg_of, yg_of, xrow_of, yrow_of. now rewrite Him, Hx, Hy.
Qed.

Lemma offsets_inputs s1 s2 rest : inputs s1 = inputs s2 -> offsets s1 rest = offsets s2 rest.
Proof.
  intros H. unfold offsets.
  now rewrite (xdim_inputs _ _ H), (ydim_inputs _ _ H).
Qed.

Lemma root_fails_inputs lm rest s1 s2 off :
  inputs s1 = inputs s2 -> root_fails lm rest s1 off = root_fails lm rest s2 off.
Proof.
  intros H. unfold root_fails. now destruct (xg_yg_of_inputs s1 s2 off H) as [-> ->].
Qed.

(** X16. The projection is idempotent on the object: the same call made a
    second time returns or raises as the first did and leaves the object as
    the first left it. *)
Theorem heliographic_idempotent (lm : libm) (a : args) (self : CRD) :
  heliographic lm a (fst (heliographic lm a self)) = heliographic lm a self.
Proof.
  destruct a as [[a0|d] rest].
  - now rewrite heliographic_Num_state.
  - assert (I : inputs (fst (heliographic lm (Arr d, rest) self)) = inputs self)
      by apply inputs_heliographic.
    rewrite !heliographic_Arr in *. unfold heliographic_image in *.
    rewrite (offsets_inputs _ _ rest I).
    destruct (offsets self rest) as [off|e]; [|reflexivity].
    rewrite (root_fails_inputs lm rest _ _ off I).
    destruct (root_fails lm rest self off) as [[]|e]; [|reflexivity].
    destruct (project lm (B0 self) (rsun self) _ _) as [ll|e] eqn:E; cbn [fst] in *.
    + pose proof (lon_lat_inputs lm _ _ off I) as L. unfold lon_lat in L.
      rewrite E in L. cbn [obind] in L.
      destruct (project lm (B0 (cached ll (meshed self off))) _ _ _) as [ll'|e'];
        [|discriminate L].
      cbn [obind] in L. f_equal; [|exact L].
      injection L as L1 L2.
      clear. unfold cached, meshed.
      cbn [lonh set_rg set_xg_yg set_lonh set_lath].
      destruct (lonh self) eqn:El; cbn [lonh set_rg set_xg_yg set_lonh set_lath];
        rewrite ?El; reflexivity.
    + change (project lm (B0 (meshed self off)) (rsun (meshed self off))
                (Grid (xg_of (meshed self off) off))
                (Grid (grid_map PrimFloat.opp (yg_of (meshed self off) off))))
        with (project lm (B0 self) (rsun self) (Grid (xg_of self off))
                (Grid (grid_map PrimFloat.opp (yg_of self off)))).
      rewrite E. reflexivity.
Qed.

(** X17. The flux operation fails at its first statement in two ways: on
    an object without the attribute [area] with [AttributeError], and on the
    object that a returning [eoa] on the image leaves, where [area] is an
    array and cannot be called, with [TypeError].  Either way the object is
    left as it was. *)
Theorem magnetic_flux_before_and_after_eoa (lm : libm) (sc : sun_constants)
    (a : args) (self : CRD) (d : grid) (rest : list pynum) :
  0 < ydim self -> area self = None ->
  magnetic_flux lm sc a self = (self, Raise (AttributeError "area")) /\
  magnetic_flux lm sc a (fst (eoa lm (Arr d, rest) self))
    = (fst (eoa lm (Arr d, rest) self), Raise TypeError).
Proof.
  intros Hh Hnone. split.
  - unfold magnetic_flux, bind at 1, call_area, bind, getattr, raise.
    now rewrite Hnone.
  - destruct (eoa_image lm d rest self Hh)
      as (lon1 & lat1 & lon2 & lat2 & lon3 & lat3 & lon4 & lat4 & v & a' & s' &
          _ & _ & _ & _ & _ & _ & He & _ & Ha & _).
    rewrite He. cbn [fst].
    unfold magnetic_flux, bind at 1, call_area, bind, getattr, raise.
    now rewrite Ha.
Qed.

Lemma magnetic_flux_before_and_after_eoa_small :
  (0 < ydim small_crd /\ area small_crd = None) /\
  magnetic_flux libm_ref sunpy_constants (Arr (data small_map), []) small_crd
    = (small_crd, Raise (AttributeError "area")) /\
  magnetic_flux libm_ref sunpy_constants (Arr (data small_map), [])
    (fst (eoa libm_ref (Arr (data small_map), []) small_crd))
    = (fst (eoa libm_ref (Arr (data small_map), []) small_crd), Raise TypeError).
Proof.
  assert (H : 0 < ydim small_crd /\ area small_crd = None)
    by (split; [vm_compute; lia|reflexivity]).
  split; [exact H|].
  exact (magnetic_flux_before_and_after_eoa libm_ref sunpy_constants
           (Arr (data small_map), []) small_crd (data small_map) []
           (proj1 H) (proj2 H)).
Defined.
